(** * Shape-level and value-level model of [model/gen_disc.py]

    The Python module wires Keras layers into three model graphs: a
    ResNet-style generator, an EfficientNet-based generator and a PatchGAN
    discriminator.  This development embeds

    - the Keras functional API as a small state-and-error monad that
      appends one node per layer call to a graph and infers the static
      (per-sample) output shape of every node;
    - the block builders [residual_block], [downsample], [upsample] and the
      three model builders, statement by statement;
    - the run-time behaviour of [ReflectionPadding2D.call] ([tf.pad] in
      REFLECT mode) on concrete rank-4 tensors, and of the element-wise
      activations on real-valued tensors. *)

From Stdlib Require Import ZArith List String Bool Lia QArith Reals Lra.
Import ListNotations.
Open Scope string_scope.
Open Scope list_scope.
Open Scope Z_scope.

(* ===================================================================== *)
(** * Exceptions and results *)
(* ===================================================================== *)

(** The Python exceptions that the modelled code paths can raise. *)
Inductive exn : Type :=
| TypeError (msg : string)
| ValueError (msg : string)
| IndexError (msg : string)
| InvalidArgumentError (msg : string).

(** [inl e] is a raised exception, [inr v] a normal return. *)
Definition result (A : Type) : Type := (exn + A)%type.

(* ===================================================================== *)
(** * Layers *)
(* ===================================================================== *)

(** Static per-sample shape of a symbolic tensor; the leading batch axis,
    always [None] in these graphs, is left out.  An image tensor is
    [[height; width; channels]]. *)
Definition shape : Type := list Z.

Inductive padding_mode : Type := Valid | Same.

(** The objects the code passes as [activation]: [layers.Activation(name)]
    and [layers.LeakyReLU(alpha)]. *)
Inductive activation : Type :=
| Activation (fn : string)
| LeakyReLU (alpha : Q).

(** Layer configurations, with the arguments the module sets.  [Conv2D] and
    [Conv2DTranspose] carry the layer's own [activation] argument, which the
    module never sets (Keras default [None], a linear output).  [External]
    stands for a layer of the pretrained backbone, which this module only
    receives already built and never calls. *)
Inductive layer : Type :=
| InputLayer (input_shape : shape) (name : option string)
| ReflectionPadding2D (padding : Z * Z)
| Conv2D (filters : Z) (kernel_size strides : Z * Z) (padding : padding_mode)
         (use_bias : bool) (act : option string)
| Conv2DTranspose (filters : Z) (kernel_size strides : Z * Z)
                  (padding : padding_mode) (use_bias : bool)
                  (act : option string)
| MaxPooling2D (pool_size strides : Z * Z)
| InstanceNormalization
| Act (a : activation)
| Add
| External (name : string).

(** [keras.utils.conv_utils.conv_output_length] (no dilation). *)
Definition conv_output_length (input_length filter_size : Z)
           (padding : padding_mode) (stride : Z) : Z :=
  let output_length :=
    match padding with
    | Same => input_length
    | Valid => input_length - filter_size + 1
    end in
  (output_length + stride - 1) / stride.

(** [keras.utils.conv_utils.deconv_output_length] with
    [output_padding=None]. *)
Definition deconv_output_length (input_length filter_size : Z)
           (padding : padding_mode) (stride : Z) : Z :=
  match padding with
  | Valid => input_length * stride + Z.max (filter_size - stride) 0
  | Same => input_length * stride
  end.

(** One axis of [keras.layers.merge._Merge._compute_elemwise_op_output_shape]:
    a dimension of size 1 broadcasts, otherwise the sizes must agree. *)
Definition broadcast_dim (i j : Z) : result Z :=
  if i =? 1 then inr j
  else if j =? 1 then inr i
  else if i =? j then inr i
  else inl (ValueError "Operands could not be broadcast together").

Definition pos2 (p : Z * Z) : bool := (0 <? fst p) && (0 <? snd p).

(** Static shape inference of one layer call, as Keras performs it while the
    graph is built.  For [ReflectionPadding2D] this is the shape function of
    [tf.pad]: every padded axis grows by the two margins; the REFLECT bound
    (margin below the axis size) is enforced only when the op is executed
    (see [tf_pad_reflect] below). *)
Definition compute_output_shape (l : layer) (inputs : list shape)
  : result shape :=
  match l, inputs with
  | InputLayer s _, [] => inr s
  | ReflectionPadding2D (padding_width, padding_height), [[h; w; c]] =>
      if (padding_width <? 0) || (padding_height <? 0)
      then inl (InvalidArgumentError "Paddings must be non-negative")
      else inr [h + 2 * padding_height; w + 2 * padding_width; c]
  | Conv2D filters kernel_size strides padding _ _, [[h; w; c]] =>
      if negb ((0 <? filters) && pos2 kernel_size && pos2 strides && (0 <? c))
      then inl (ValueError "Invalid Conv2D arguments")
      else
        let h' := conv_output_length h (fst kernel_size) padding (fst strides) in
        let w' := conv_output_length w (snd kernel_size) padding (snd strides) in
        if (0 <? h') && (0 <? w') then inr [h'; w'; filters]
        else inl (ValueError "One of the dimensions in the output is <= 0")
  | Conv2DTranspose filters kernel_size strides padding _ _, [[h; w; c]] =>
      if negb ((0 <? filters) && pos2 kernel_size && pos2 strides && (0 <? c))
      then inl (ValueError "Invalid Conv2DTranspose arguments")
      else
        let h' := deconv_output_length h (fst kernel_size) padding (fst strides) in
        let w' := deconv_output_length w (snd kernel_size) padding (snd strides) in
        if (0 <? h') && (0 <? w') then inr [h'; w'; filters]
        else inl (ValueError "One of the dimensions in the output is <= 0")
  | MaxPooling2D pool_size strides, [[h; w; c]] =>
      if negb (pos2 pool_size && pos2 strides)
      then inl (ValueError "Invalid MaxPooling2D arguments")
      else
        let h' := conv_output_length h (fst pool_size) Valid (fst strides) in
        let w' := conv_output_length w (snd pool_size) Valid (snd strides) in
        if (0 <? h') && (0 <? w') then inr [h'; w'; c]
        else inl (ValueError "One of the dimensions in the output is <= 0")
  | InstanceNormalization, [s] => inr s
  | Act _, [s] => inr s
  | Add, [[h1; w1; c1]; [h2; w2; c2]] =>
      match broadcast_dim h1 h2, broadcast_dim w1 w2, broadcast_dim c1 c2 with
      | inr h, inr w, inr c => inr [h; w; c]
      | inl e, _, _ => inl e
      | _, inl e, _ => inl e
      | _, _, inl e => inl e
      end
  | _, _ => inl (ValueError "Input is incompatible with the layer")
  end.

(** Trainable weights a layer creates for an input of [c] channels, as
    (name, shape) pairs.  [ReflectionPadding2D] defines only [__init__] and
    [call]: it never calls [add_weight]. *)
Definition trainable_weights (l : layer) (c : Z) : list (string * list Z) :=
  match l with
  | Conv2D filters (kh, kw) _ _ use_bias _ =>
      ("kernel", [kh; kw; c; filters])
        :: (if use_bias then [("bias", [filters])] else [])
  | Conv2DTranspose filters (kh, kw) _ _ use_bias _ =>
      ("kernel", [kh; kw; filters; c])
        :: (if use_bias then [("bias", [filters])] else [])
  | InstanceNormalization => [("gamma", [c]); ("beta", [c])]
  | InputLayer _ _ | ReflectionPadding2D _ | MaxPooling2D _ _ | Act _ | Add
  | External _ => []
  end.

(* ===================================================================== *)
(** * The functional API: graphs under construction *)
(* ===================================================================== *)

(** A symbolic tensor: the node that produced it and its static shape. *)
Record keras_tensor : Type := mkTensor {
  kt_node : nat;
  kt_shape : shape
}.

(** One layer call: the layer, the nodes it reads and its output shape. *)
Record node : Type := mkNode {
  n_layer : layer;
  n_inputs : list nat;
  n_output : shape
}.

Definition graph : Type := list node.

(** Graph construction threads the graph built so far and may raise. *)
Definition builder (A : Type) : Type := graph -> result (A * graph).

Definition ret {A} (a : A) : builder A := fun g => inr (a, g).

Definition bind {A B} (c : builder A) (k : A -> builder B) : builder B :=
  fun g =>
    match c g with
    | inl e => inl e
    | inr (a, g') => k a g'
    end.

Definition raise {A} (e : exn) : builder A := fun _ => inl e.

Declare Scope builder_scope.
Delimit Scope builder_scope with builder.
Notation "x <- c ;; k" := (bind c (fun x => k))
  (at level 61, c at next level, right associativity) : builder_scope.
Notation "' pat <- c ;; k" := (bind c (fun x => match x with pat => k end))
  (at level 61, pat pattern, c at next level, right associativity)
  : builder_scope.
Open Scope builder_scope.

(** [layer(inputs)]: infer the output shape, append the node, return the
    new symbolic tensor. *)
Definition call (l : layer) (inputs : list keras_tensor)
  : builder keras_tensor :=
  fun g =>
    match compute_output_shape l (map kt_shape inputs) with
    | inl e => inl e
    | inr s =>
        inr (mkTensor (List.length g) s,
             g ++ [mkNode l (map kt_node inputs) s])
    end.

(** [for i in xs: s = body(i, s)]. *)
Fixpoint for_each {I S} (xs : list I) (body : I -> S -> builder S) (s : S)
  : builder S :=
  match xs with
  | [] => ret s
  | i :: xs' => s' <- body i s ;; for_each xs' body s'
  end.

(** Python's [range(n)]: empty when [n <= 0]. *)
Definition range (n : Z) : list Z := map Z.of_nat (seq 0 (Z.to_nat n)).

(** [x.shape[-1]]. *)
Definition last_dim (x : keras_tensor) : builder Z :=
  match rev (kt_shape x) with
  | d :: _ => ret d
  | [] => raise (IndexError "list index out of range")
  end.

Record Model : Type := mkModel {
  m_inputs : list keras_tensor;
  m_outputs : keras_tensor;
  m_graph : graph;
  m_name : option string
}.

Definition layers_of (m : Model) : list layer := map n_layer (m_graph m).
Definition output_shape (m : Model) : shape := kt_shape (m_outputs m).
Definition input_shapes (m : Model) : list shape := map kt_shape (m_inputs m).

(* ===================================================================== *)
(** * Block builders *)
(* ===================================================================== *)

Definition relu : activation := Activation "relu".
Definition tanh_act : activation := Activation "tanh".

(** [residual_block(x, activation, kernel_size=(3, 3), strides=(1, 1),
    padding="valid", use_bias=False)]. *)
Definition residual_block (x : keras_tensor) (activation : activation)
           (kernel_size strides : Z * Z) (padding : padding_mode)
           (use_bias : bool) : builder keras_tensor :=
  dim <- last_dim x ;;
  let input_tensor := x in
  x <- call (ReflectionPadding2D (1, 1)) [input_tensor] ;;
  x <- call (Conv2D dim kernel_size strides padding use_bias None) [x] ;;
  x <- call InstanceNormalization [x] ;;
  x <- call (Act activation) [x] ;;
  x <- call (ReflectionPadding2D (1, 1)) [x] ;;
  x <- call (Conv2D dim kernel_size strides padding use_bias None) [x] ;;
  x <- call InstanceNormalization [x] ;;
  x <- call Add [input_tensor; x] ;;
  ret x.

(** [downsample(x, filters, activation, kernel_size=(3, 3), strides=(2, 2),
    padding="same", use_bias=False)]; [activation] may be falsy. *)
Definition downsample (x : keras_tensor) (filters : Z)
           (activation : option activation)
           (kernel_size strides : Z * Z) (padding : padding_mode)
           (use_bias : bool) : builder keras_tensor :=
  x <- call (Conv2D filters kernel_size strides padding use_bias None) [x] ;;
  x <- call InstanceNormalization [x] ;;
  match activation with
  | Some a => x <- call (Act a) [x] ;; ret x
  | None => ret x
  end.

(** [upsample(x, filters, activation, kernel_size=(3, 3), strides=(2, 2),
    padding="same", use_bias=False)]. *)
Definition upsample (x : keras_tensor) (filters : Z)
           (activation : option activation)
           (kernel_size strides : Z * Z) (padding : padding_mode)
           (use_bias : bool) : builder keras_tensor :=
  x <- call (Conv2DTranspose filters kernel_size strides padding use_bias None)
            [x] ;;
  x <- call InstanceNormalization [x] ;;
  match activation with
  | Some a => x <- call (Act a) [x] ;; ret x
  | None => ret x
  end.

(** The keyword defaults of the three block builders. *)
Definition default_kernel_size : Z * Z := (3, 3).
Definition residual_default_strides : Z * Z := (1, 1).
Definition sample_default_strides : Z * Z := (2, 2).

(* ===================================================================== *)
(** * Model builders *)
(* ===================================================================== *)

(** [keras.models.Model(inputs, outputs, name=name)] over the graph that the
    construction code [c] builds on top of [g0].  The [compile()] and
    [summary()] calls that follow in the source leave the graph as it is. *)
Definition build_model (g0 : graph)
           (c : builder (list keras_tensor * keras_tensor))
           (name : option string) : result Model :=
  match c g0 with
  | inl e => inl e
  | inr ((inputs, outputs), g) => inr (mkModel inputs outputs g name)
  end.

(** [get_resnet_generator(filters=64, num_downsampling_blocks=2,
    num_residual_blocks=5, num_upsample_blocks=2, name=None)]. *)
Definition get_resnet_generator
           (filters num_downsampling_blocks num_residual_blocks
            num_upsample_blocks : Z) (name : option string) : result Model :=
  build_model []
    (inputs <- call (InputLayer [256; 256; 3] None) [] ;;
     x <- call (ReflectionPadding2D (3, 3)) [inputs] ;;
     x <- call (Conv2D filters (7, 7) (1, 1) Valid false None) [x] ;;
     x <- call InstanceNormalization [x] ;;
     x <- call (Act relu) [x] ;;
     (* Downsampling *)
     '(filters, x) <-
       for_each (range num_downsampling_blocks)
         (fun _ '(filters, x) =>
            let filters := filters * 2 in
            x <- downsample x filters (Some relu)
                   default_kernel_size sample_default_strides Same false ;;
            ret (filters, x))
         (filters, x) ;;
     (* Residual blocks *)
     x <-
       for_each (range num_residual_blocks)
         (fun _ x =>
            residual_block x relu
              default_kernel_size residual_default_strides Valid false)
         x ;;
     (* Upsampling *)
     '(filters, x) <-
       for_each (range num_upsample_blocks)
         (fun _ '(filters, x) =>
            let filters := filters / 2 in
            x <- upsample x filters (Some relu)
                   default_kernel_size sample_default_strides Same false ;;
            ret (filters, x))
         (filters, x) ;;
     (* Final block *)
     x <- call (ReflectionPadding2D (3, 3)) [x] ;;
     x <- call (Conv2D 3 (7, 7) (1, 1) Valid true None) [x] ;;
     x <- call (Act tanh_act) [x] ;;
     ret ([inputs], x))
    name.

(** [name + "_img_input"]: string concatenation, a [TypeError] when [name]
    is [None]. *)
Definition str_add (name : option string) (suffix : string) : result string :=
  match name with
  | Some s => inr (s ++ suffix)%string
  | None =>
      inl (TypeError "unsupported operand type(s) for +: 'NoneType' and 'str'")
  end.

Definition leaky : activation := LeakyReLU (2 # 10).

(** [get_discriminator(filters=64, num_downsampling=3, name=None)]. *)
Definition get_discriminator (filters num_downsampling : Z)
           (name : option string) : result Model :=
  match str_add name "_img_input" with
  | inl e => inl e
  | inr input_name =>
      build_model []
        (img_input <- call (InputLayer [256; 256; 3] (Some input_name)) [] ;;
         x <- call (Conv2D filters (4, 4) (2, 2) Same true None) [img_input] ;;
         x <- call (Act leaky) [x] ;;
         let num_filters := filters in
         '(num_filters, x) <-
           for_each (range 3)
             (fun num_downsample_block '(num_filters, x) =>
                let num_filters := num_filters * 2 in
                if num_downsample_block <? 2 then
                  x <- downsample x num_filters (Some leaky)
                         (4, 4) (2, 2) Same false ;;
                  ret (num_filters, x)
                else
                  x <- downsample x num_filters (Some leaky)
                         (4, 4) (1, 1) Same false ;;
                  ret (num_filters, x))
             (num_filters, x) ;;
         x <- call (Conv2D 1 (4, 4) (1, 1) Same true None) [x] ;;
         ret ([img_input], x))
        name
  end.

(** ** [Model(inputs, outputs)] on a graph with nodes to spare

    A Keras model holds the layers its outputs depend on, found by walking
    back from the outputs; layers built on the same graph that do not lead
    to the outputs are not part of it.  [build_model] above is this
    constructor for the two builders all of whose layers lead to the
    output. *)

(** Backward sweep over the nodes, last first.  [needed] are the numbers of
    the nodes wanted so far; a node that is wanted is kept and the nodes it
    reads become wanted.  The kept nodes come back in construction order,
    each with its number in the full graph. *)
Fixpoint sweep (nodes_rev : list node) (needed : list nat)
  : list (nat * node) :=
  match nodes_rev with
  | [] => []
  | n :: rest =>
      let i := List.length rest in
      if existsb (Nat.eqb i) needed
      then sweep rest (n_inputs n ++ needed) ++ [(i, n)]
      else sweep rest needed
  end.

Definition ancestors (g : graph) (outputs : list nat) : list (nat * node) :=
  sweep (rev g) outputs.

(** Number, among the kept nodes, of node [j] of the full graph. *)
Definition position (kept : list (nat * node)) (j : nat) : nat :=
  List.length (filter (fun p => (fst p <? j)%nat) kept).

Definition renumber (kept : list (nat * node)) (p : nat * node) : node :=
  mkNode (n_layer (snd p)) (map (position kept) (n_inputs (snd p)))
         (n_output (snd p)).

Definition retarget (kept : list (nat * node)) (x : keras_tensor)
  : keras_tensor :=
  mkTensor (position kept (kt_node x)) (kt_shape x).

(** The graph of the nodes that [outputs] depend on, renumbered. *)
Definition prune_graph (g : graph) (outputs : list nat) : graph :=
  let kept := ancestors g outputs in
  map (renumber kept) kept.

(** [Model(inputs=..., outputs=...)] over the graph that [c] builds on top
    of [g0]: only what the output depends on is kept. *)
Definition keras_Model (g0 : graph)
           (c : builder (list keras_tensor * keras_tensor))
           (name : option string) : result Model :=
  match c g0 with
  | inl e => inl e
  | inr ((inputs, outputs), g) =>
      let kept := ancestors g [kt_node outputs] in
      inr (mkModel (map (retarget kept) inputs) (retarget kept outputs)
                   (map (renumber kept) kept) name)
  end.

(** Every node from position [i] on reads only nodes before it. *)
Fixpoint topological_from (i : nat) (g : list node) : bool :=
  match g with
  | [] => true
  | n :: g' =>
      forallb (fun j => (j <? i)%nat) (n_inputs n)
      && topological_from (S i) g'
  end.

Definition topological (g : graph) : bool := topological_from 0 g.

(** Python list indexing [l[i]], negative indices counting from the end;
    also returns the position that was read. *)
Definition py_index {A} (l : list A) (i : Z) : result (nat * A) :=
  let n := Z.of_nat (List.length l) in
  let j := if i <? 0 then i + n else i in
  if (0 <=? j) && (j <? n) then
    match nth_error l (Z.to_nat j) with
    | Some a => inr (Z.to_nat j, a)
    | None => inl (IndexError "list index out of range")
    end
  else inl (IndexError "list index out of range").

(** [efficientnet_generator()].  The backbone
    [efn.EfficientNetB3(include_top=False, weights="imagenet",
    input_shape=(256, 256, 3))] comes from the external [efficientnet]
    package; the builder takes the constructed backbone model as its
    argument [model] and does to it what the source does. *)
Definition efficientnet_generator (model : Model) : result Model :=
  match py_index (m_graph model) (-36) with
  | inl e => inl e
  | inr (i, tapped) =>
      keras_Model (m_graph model)
        (let x := mkTensor i (n_output tapped) in
         x <- call (Conv2DTranspose 640 (2, 2) (2, 2) Valid false None) [x] ;;
         x <- call (MaxPooling2D (2, 2) (1, 1)) [x] ;;
         x <- call InstanceNormalization [x] ;;

         x <- call (Conv2DTranspose 160 (4, 4) (4, 4) Valid false None) [x] ;;
         x <- call (MaxPooling2D (2, 2) (1, 1)) [x] ;;
         x <- call InstanceNormalization [x] ;;

         x <- call (Conv2DTranspose 40 (2, 2) (2, 2) Valid false None) [x] ;;
         x <- call (MaxPooling2D (2, 2) (1, 1)) [x] ;;
         x <- call InstanceNormalization [x] ;;

         x <- call (Conv2DTranspose 3 (2, 2) (2, 2) Valid false None) [x] ;;
         x <- call (MaxPooling2D (2, 2) (1, 1)) [x] ;;
         x <- call InstanceNormalization [x] ;;
         ret (m_inputs model, x))
        None
  end.

(* ===================================================================== *)
(** * Layer sequences of the generator, written out *)
(* ===================================================================== *)

(** Ceiling of a half: the output length of a stride-2 "same" convolution. *)
Definition half_up (h : Z) : Z := (h + 1) / 2.

(** The layers one [downsample] / [upsample] / [residual_block] call adds
    with the generator's arguments. *)
Definition downsample_layers (filters : Z) : list layer :=
  [Conv2D filters (3, 3) (2, 2) Same false None;
   InstanceNormalization; Act relu].

Definition upsample_layers (filters : Z) : list layer :=
  [Conv2DTranspose filters (3, 3) (2, 2) Same false None;
   InstanceNormalization; Act relu].

Definition residual_layers (dim : Z) : list layer :=
  [ReflectionPadding2D (1, 1);
   Conv2D dim (3, 3) (1, 1) Valid false None;
   InstanceNormalization; Act relu;
   ReflectionPadding2D (1, 1);
   Conv2D dim (3, 3) (1, 1) Valid false None;
   InstanceNormalization; Add].

(** The indices 1..n of the blocks of one stage. *)
Definition steps (n : Z) : list Z := map Z.of_nat (seq 1 (Z.to_nat n)).

(** The documented layer sequence of the generator, to be compared with
    what [get_resnet_generator] builds:
    input -> reflect-pad(3,3) -> 7x7 conv -> norm -> ReLU
    -> N downsampling blocks, the i-th with [filters * 2^i] channels
    -> M residual blocks at [filters * 2^N] channels
    -> K upsampling blocks, the j-th with [filters * 2^N // 2^j] channels
    -> reflect-pad(3,3) -> 7x7 conv to 3 channels -> tanh. *)
Definition resnet_generator_layers (filters N M K : Z) : list layer :=
  [InputLayer [256; 256; 3] None;
   ReflectionPadding2D (3, 3);
   Conv2D filters (7, 7) (1, 1) Valid false None;
   InstanceNormalization; Act relu]
  ++ flat_map (fun i => downsample_layers (filters * 2 ^ i)) (steps N)
  ++ List.concat
       (repeat (residual_layers (filters * 2 ^ Z.max 0 N)) (Z.to_nat M))
  ++ flat_map (fun j => upsample_layers (filters * 2 ^ Z.max 0 N / 2 ^ j))
              (steps K)
  ++ [ReflectionPadding2D (3, 3);
      Conv2D 3 (7, 7) (1, 1) Valid true None;
      Act tanh_act].

(** Every node except the input and the skip additions reads the node just
    before it; an [Add] reads the block's input, eight nodes back, and the
    node just before it. *)
Fixpoint chained_from (i : nat) (g : list node) : bool :=
  match g with
  | [] => true
  | n :: g' =>
      (match n_layer n with
       | InputLayer _ _ => match n_inputs n with [] => true | _ => false end
       | Add =>
           match n_inputs n with
           | [a; b] => Nat.eqb (a + 8) i && Nat.eqb (b + 1) i
           | _ => false
           end
       | _ =>
           match n_inputs n with
           | [a] => Nat.eqb (a + 1) i
           | _ => false
           end
       end) && chained_from (S i) g'
  end.

(** The decoder that [efficientnet_generator] appends to a backbone of
    [len] nodes, reading node [tap] of shape [h; w; _]: four stages of
    transposed convolution (kernel = stride = [k]), 2x2 stride-1
    max-pooling and instance normalisation. *)
Definition decoder_stage (input id : nat) (filters k : Z) (h w : Z)
  : list node :=
  [mkNode (Conv2DTranspose filters (k, k) (k, k) Valid false None)
          [input] [h * k; w * k; filters];
   mkNode (MaxPooling2D (2, 2) (1, 1))
          [id] [h * k - 1; w * k - 1; filters];
   mkNode InstanceNormalization
          [(id + 1)%nat] [h * k - 1; w * k - 1; filters]].

Definition decoder_nodes (tap len : nat) (h w : Z) : list node :=
  let h1 := h * 2 - 1 in let w1 := w * 2 - 1 in
  let h2 := h1 * 4 - 1 in let w2 := w1 * 4 - 1 in
  let h3 := h2 * 2 - 1 in let w3 := w2 * 2 - 1 in
  decoder_stage tap len 640 2 h w
  ++ decoder_stage (len + 2) (len + 3) 160 4 h1 w1
  ++ decoder_stage (len + 5) (len + 6) 40 2 h2 w2
  ++ decoder_stage (len + 8) (len + 9) 3 2 h3 w3.

(** A backbone as far as [efficientnet_generator] looks at it: an input, the
    layer that ends up at position -36 with output shape [tap_shape], and
    the 35 backbone layers after it. *)
Definition backbone_tail (tap_name : string) (tap_shape : shape) : Model :=
  let g :=
    mkNode (InputLayer [256; 256; 3] None) [] [256; 256; 3]
    :: mkNode (External tap_name) [0%nat] tap_shape
    :: map (fun i => mkNode (External "backbone") [i] []) (seq 1 35) in
  mkModel [mkTensor 0 [256; 256; 3]] (mkTensor 36 []) g None.

(** EfficientNetB3 without its top at input 256x256x3: position -36 of
    [model.layers] is the squeeze-and-excite product of block 6f, on the
    stride-32 grid (8x8) with 6 * 232 channels. *)
Definition EfficientNetB3_notop : Model :=
  backbone_tail "block6f_se_excite" [8; 8; 1392].

(* ===================================================================== *)
(** * Values: reflection padding and activations on concrete tensors *)
(* ===================================================================== *)

(** A rank-4 tensor (batch, height, width, channels) as nested lists. *)
Definition tensor4 (A : Type) : Type := list (list (list (list A))).

Definition has_shape4 {A} (t : tensor4 A) (b h w c : nat) : Prop :=
  List.length t = b /\
  Forall (fun img => List.length img = h /\
    Forall (fun row => List.length row = w /\
      Forall (fun px => List.length px = c) row) img) t.

(** [t[n][i][j][k]]. *)
Definition tget {A} (t : tensor4 A) (n i j k : nat) : option A :=
  match nth_error t n with
  | Some img =>
      match nth_error img i with
      | Some row =>
          match nth_error row j with
          | Some px => nth_error px k
          | None => None
          end
      | None => None
      end
  | None => None
  end.

Fixpoint mapM {X Y} (f : X -> result Y) (l : list X) : result (list Y) :=
  match l with
  | [] => inr []
  | x :: l' =>
      match f x with
      | inl e => inl e
      | inr y =>
          match mapM f l' with
          | inl e => inl e
          | inr ys => inr (y :: ys)
          end
      end
  end.

(** REFLECT padding of one axis: the margins mirror the entries next to
    the border, the border entry itself is not repeated
    ([[1; 2; 3]] padded by 2 and 1 is [[3; 2; 1; 2; 3; 2]]). *)
Definition mirror_pad {X} (before after : nat) (l : list X) : list X :=
  rev (firstn before (tl l)) ++ l ++ firstn after (tl (rev l)).

(** [tf.pad(..., mode="REFLECT")] along one axis: both margins must be
    non-negative and below the axis size. *)
Definition mirror_pad_axis {X} (before after : Z) (l : list X)
  : result (list X) :=
  if (before <? 0) || (after <? 0)
  then inl (InvalidArgumentError "paddings must be non-negative")
  else if (before <? Z.of_nat (List.length l))
          && (after <? Z.of_nat (List.length l))
  then inr (mirror_pad (Z.to_nat before) (Z.to_nat after) l)
  else inl (InvalidArgumentError
              "paddings must be less than the dimension size").

(** [tf.pad(t, paddings, mode="REFLECT")] for a rank-4 tensor and a
    4-by-2 [paddings] matrix. *)
Definition tf_pad_reflect {A} (t : tensor4 A) (paddings : list (Z * Z))
  : result (tensor4 A) :=
  match paddings with
  | [(b0, a0); (b1, a1); (b2, a2); (b3, a3)] =>
      match mirror_pad_axis b0 a0 t with
      | inl e => inl e
      | inr t0 =>
          mapM (fun img =>
            match mirror_pad_axis b1 a1 img with
            | inl e => inl e
            | inr img1 =>
                mapM (fun row =>
                  match mirror_pad_axis b2 a2 row with
                  | inl e => inl e
                  | inr row2 => mapM (mirror_pad_axis b3 a3) row2
                  end) img1
            end) t0
      end
  | _ => inl (InvalidArgumentError "paddings must be a matrix of [rank, 2]")
  end.

(** [ReflectionPadding2D(padding).call(input_tensor)]. *)
Definition ReflectionPadding2D_call {A} (padding : Z * Z)
           (input_tensor : tensor4 A) : result (tensor4 A) :=
  let '(padding_width, padding_height) := padding in
  let padding_tensor :=
    [(0, 0);
     (padding_height, padding_height);
     (padding_width, padding_width);
     (0, 0)] in
  tf_pad_reflect input_tensor padding_tensor.

(** Position in an axis of size [n] that output position [i] of a
    reflect-padded axis (margin [p]) copies. *)
Definition reflect_index (n p i : nat) : nat :=
  if (i <? p)%nat then (p - i)%nat
  else if (i <? p + n)%nat then (i - p)%nat
  else (2 * (n - 1) - (i - p))%nat.

(** Element-wise function of an activation layer, over the reals. *)
Definition activation_fn (a : activation) : option (R -> R) :=
  match a with
  | Activation fn =>
      if String.eqb fn "tanh" then Some tanh
      else if String.eqb fn "relu" then Some (fun x => Rmax x 0)
      else if String.eqb fn "linear" then Some (fun x => x)
      else None
  | LeakyReLU alpha =>
      Some (fun x => Rmax x 0 - Q2R alpha * Rmax (- x) 0)%R
  end.

Definition tmap4 {A B} (f : A -> B) (t : tensor4 A) : tensor4 B :=
  map (map (map (map f))) t.

(** Calling an activation layer on a real-valued tensor. *)
Definition Act_call (a : activation) (t : tensor4 R) : option (tensor4 R) :=
  match activation_fn a with
  | Some f => Some (tmap4 f t)
  | None => None
  end.

(** Every component of a tensor satisfies [P]. *)
Definition Forall4 {A} (P : A -> Prop) (t : tensor4 A) : Prop :=
  Forall (Forall (Forall (Forall P))) t.

(** The same stages, unrolled block by block as the loops run them. *)
Fixpoint down_stage (n : nat) (filters : Z) : list layer :=
  match n with
  | O => []
  | S n' => downsample_layers (filters * 2) ++ down_stage n' (filters * 2)
  end.

Fixpoint up_stage (n : nat) (filters : Z) : list layer :=
  match n with
  | O => []
  | S n' => upsample_layers (filters / 2) ++ up_stage n' (filters / 2)
  end.

(** Spatial size after [n] stride-2 "same" convolutions. *)
Fixpoint downsampled (n : nat) (h : Z) : Z :=
  match n with
  | O => h
  | S n' => downsampled n' (half_up h)
  end.

(** [runs_to c g Q]: run on graph [g], the construction [c] returns
    normally, with a value and a final graph that satisfy [Q]. *)
Definition runs_to {A} (c : builder A) (g : graph)
           (Q : A -> graph -> Prop) : Prop :=
  exists a g', c g = inr (a, g') /\ Q a g'.

(** Keyword defaults of the builders. *)
Definition default_filters : Z := 64.
Definition default_num_downsampling_blocks : Z := 2.
Definition default_num_residual_blocks : Z := 5.
Definition default_num_upsample_blocks : Z := 2.
Definition default_num_downsampling : Z := 3.
Definition default_name : option string := None.

(** The documented layer sequence of the discriminator, to be compared
    with what [get_discriminator] builds: input -> 4x4 stride-2 conv -> LeakyReLU(0.2)
    -> three downsampling stages (strides 2, 2, 1; channels doubling)
    -> 4x4 stride-1 conv to one channel. *)
Definition discriminator_layers (filters : Z) (name : string) : list layer :=
  [InputLayer [256; 256; 3] (Some (name ++ "_img_input")%string);
   Conv2D filters (4, 4) (2, 2) Same true None; Act leaky;
   Conv2D (filters * 2) (4, 4) (2, 2) Same false None;
   InstanceNormalization; Act leaky;
   Conv2D (filters * 2 * 2) (4, 4) (2, 2) Same false None;
   InstanceNormalization; Act leaky;
   Conv2D (filters * 2 * 2 * 2) (4, 4) (1, 1) Same false None;
   InstanceNormalization; Act leaky;
   Conv2D 1 (4, 4) (1, 1) Same true None].

Definition is_instance_norm (l : layer) : bool :=
  match l with InstanceNormalization => true | _ => false end.

(** Number of [downsample] calls that went into a discriminator: each adds
    exactly one [InstanceNormalization], and nothing else in
    [get_discriminator] adds one. *)
Definition downsampling_stages (m : Model) : nat :=
  List.length (filter is_instance_norm (layers_of m)).

(** The activation configured on a layer itself, if the layer has one. *)
Definition final_activation (l : layer) : option string :=
  match l with
  | Conv2D _ _ _ _ _ a | Conv2DTranspose _ _ _ _ _ a => a
  | Act (Activation fn) => Some fn
  | Act (LeakyReLU _) => Some "leaky_relu"
  | _ => None
  end.

(** [upsample(downsample(x, filters, a1), filters, a2)] with the default
    strides (2, 2) and padding "same" on both calls. *)
Definition downsample_then_upsample (x : keras_tensor) (filters : Z)
           (a1 a2 : option activation) (kernel1 kernel2 : Z * Z)
           (use_bias1 use_bias2 : bool) : builder keras_tensor :=
  y <- downsample x filters a1 kernel1 sample_default_strides Same use_bias1 ;;
  upsample y filters a2 kernel2 sample_default_strides Same use_bias2.

(** The twelve layers of the decoder, in call order. *)
Definition decoder_layers : list layer :=
  [Conv2DTranspose 640 (2, 2) (2, 2) Valid false None;
   MaxPooling2D (2, 2) (1, 1); InstanceNormalization;
   Conv2DTranspose 160 (4, 4) (4, 4) Valid false None;
   MaxPooling2D (2, 2) (1, 1); InstanceNormalization;
   Conv2DTranspose 40 (2, 2) (2, 2) Valid false None;
   MaxPooling2D (2, 2) (1, 1); InstanceNormalization;
   Conv2DTranspose 3 (2, 2) (2, 2) Valid false None;
   MaxPooling2D (2, 2) (1, 1); InstanceNormalization].

(** Filter counts of the transposed convolutions of a layer list. *)
Fixpoint transposed_filters (ls : list layer) : list Z :=
  match ls with
  | [] => []
  | Conv2DTranspose f _ _ _ _ _ :: ls' => f :: transposed_filters ls'
  | _ :: ls' => transposed_filters ls'
  end.

Definition is_activation_layer (l : layer) : bool :=
  match l with Act _ => true | _ => false end.

(** A rank-4 tensor with its height padded by [ph] and its width by [pw] on
    both sides, in REFLECT mode. *)
Definition reflect_pad4 {A} (ph pw : nat) (t : tensor4 A) : tensor4 A :=
  map (fun img => map (mirror_pad pw pw) (mirror_pad ph ph img)) t.

(* ===================================================================== *)
(** * Well-formed graphs *)
(* ===================================================================== *)

(** [g'] is [g] with nodes appended. *)
Definition extends (g g' : graph) : Prop := exists g2, g' = g ++ g2.

(** Output shape recorded at node [j] of [g]. *)
Definition shape_at (g : graph) (j : nat) : shape :=
  nth j (map n_output g) [].

(** The symbolic tensor [x] is the output of a node of [g]. *)
Definition valid_tensor (g : graph) (x : keras_tensor) : Prop :=
  (kt_node x < List.length g)%nat /\ shape_at g (kt_node x) = kt_shape x.

(** [x] is the output of the node added last. *)
Definition last_node (g : graph) (x : keras_tensor) : Prop :=
  S (kt_node x) = List.length g.

(** Node [n] at position [i] reads only earlier nodes, and its recorded
    shape is the one its layer infers from the shapes of the nodes it
    reads. *)
Definition node_ok (g : graph) (i : nat) (n : node) : Prop :=
  Forall (fun j => (j < i)%nat) (n_inputs n)
  /\ compute_output_shape (n_layer n) (map (shape_at g) (n_inputs n))
     = inr (n_output n).

Definition graph_ok (g : graph) : Prop :=
  forall i n, nth_error g i = Some n -> node_ok g i n.

Definition is_add (l : layer) : bool :=
  match l with Add => true | _ => false end.

(** [downsample(upsample(x, filters, a1), filters, a2)] with the default
    strides (2, 2) and padding "same" on both calls. *)
Definition upsample_then_downsample (x : keras_tensor) (filters : Z)
           (a1 a2 : option activation) (kernel1 kernel2 : Z * Z)
           (use_bias1 use_bias2 : bool) : builder keras_tensor :=
  y <- upsample x filters a1 kernel1 sample_default_strides Same use_bias1 ;;
  downsample y filters a2 kernel2 sample_default_strides Same use_bias2.

(** Apply [f] to a normal return, pass an exception on. *)
Definition rmap {X Y} (f : X -> Y) (r : result X) : result Y :=
  match r with
  | inl e => inl e
  | inr x => inr (f x)
  end.

(** What every block builder guarantees for the tensor it returns: the
    graph stays well-formed, is only appended to, and the tensor is the
    output of the node added last. *)
Definition keeps_graph (g : graph) (c : builder keras_tensor) : Prop :=
  forall y g',
    c g = inr (y, g') ->
    graph_ok g' /\ extends g g' /\ valid_tensor g' y /\ last_node g' y.

(** The state the builders' loops carry is a tensor, possibly with the
    running filter count; [loop_inv g0 x g] is what holds of it between
    iterations. *)
Definition loop_inv (g0 : graph) (x : keras_tensor) (g : graph) : Prop :=
  graph_ok g /\ extends g0 g /\ valid_tensor g x /\ last_node g x.


(* ===================================================================== *)
(** * The forward pass of a built model *)
(* ===================================================================== *)

(** A batch of [b] real-valued samples of static shape [s]. *)
Definition tensor_of_shape (b : nat) (t : tensor4 R) (s : shape) : Prop :=
  match s with
  | [h; w; c] =>
      0 < h /\ 0 < w /\ 0 < c
      /\ has_shape4 t b (Z.to_nat h) (Z.to_nat w) (Z.to_nat c)
  | _ => False
  end.

Definition has_shape4b {A} (t : tensor4 A) (b h w c : nat) : bool :=
  (List.length t =? b)%nat
  && forallb (fun img =>
       (List.length img =? h)%nat
       && forallb (fun row =>
            (List.length row =? w)%nat
            && forallb (fun px => (List.length px =? c)%nat) row) img) t.

(** The check an [Input] layer makes on the array it is fed: every axis
    but the batch axis must have the declared size. *)
Definition fits (t : tensor4 R) (s : shape) : bool :=
  match s with
  | [h; w; c] =>
      (0 <? h) && (0 <? w) && (0 <? c)
      && has_shape4b t (List.length t)
                     (Z.to_nat h) (Z.to_nat w) (Z.to_nat c)
  | _ => false
  end.

Fixpoint all_some {X} (l : list (option X)) : option (list X) :=
  match l with
  | [] => Some []
  | None :: _ => None
  | Some x :: l' =>
      match all_some l' with
      | Some xs => Some (x :: xs)
      | None => None
      end
  end.

Definition to_option {X} (r : result X) : option X :=
  match r with
  | inr x => Some x
  | inl _ => None
  end.

(** The layers whose arithmetic lives in Keras and TensorFlow Addons; the
    module only configures them. *)
Definition framework_layer (l : layer) : bool :=
  match l with
  | Conv2D _ _ _ _ _ _ | Conv2DTranspose _ _ _ _ _ _ | MaxPooling2D _ _
  | InstanceNormalization | Add => true
  | InputLayer _ _ | ReflectionPadding2D _ | Act _ | External _ => false
  end.

(** Value of one node, given the values of the nodes before it and the
    array [x] fed to the model's input.  [ReflectionPadding2D] runs the
    module's own [call]; an activation layer applies its function
    element-wise; the framework layers are computed by [layer_fn], whatever
    their weights are; a backbone layer has no value here. *)
Definition node_value
           (layer_fn : layer -> list (tensor4 R) -> option (tensor4 R))
           (x : tensor4 R) (vals : list (tensor4 R)) (n : node)
  : option (tensor4 R) :=
  match all_some (map (nth_error vals) (n_inputs n)) with
  | None => None
  | Some ts =>
      match n_layer n with
      | InputLayer s _ =>
          match ts with
          | [] => if fits x s then Some x else None
          | _ => None
          end
      | ReflectionPadding2D padding =>
          match ts with
          | [t] => to_option (ReflectionPadding2D_call padding t)
          | _ => None
          end
      | Act a =>
          match ts with
          | [t] => Act_call a t
          | _ => None
          end
      | External _ => None
      | l => layer_fn l ts
      end
  end.

(** The nodes are evaluated in the order in which they were created. *)
Fixpoint eval_nodes
         (layer_fn : layer -> list (tensor4 R) -> option (tensor4 R))
         (x : tensor4 R) (vals : list (tensor4 R)) (g : list node)
  : option (list (tensor4 R)) :=
  match g with
  | [] => Some vals
  | n :: g' =>
      match node_value layer_fn x vals n with
      | None => None
      | Some v => eval_nodes layer_fn x (vals ++ [v]) g'
      end
  end.

(** [model(x)] for a model with one input: the value of the output node. *)
Definition predict
           (layer_fn : layer -> list (tensor4 R) -> option (tensor4 R))
           (m : Model) (x : tensor4 R) : option (tensor4 R) :=
  match eval_nodes layer_fn x [] (m_graph m) with
  | None => None
  | Some vals => nth_error vals (kt_node (m_outputs m))
  end.

Definition positive3 (s : shape) : bool :=
  match s with
  | [h; w; c] => (0 <? h) && (0 <? w) && (0 <? c)
  | _ => false
  end.

(** What is assumed of the framework layers: fed batches of [b] samples
    whose shapes are the positive static shapes [ins], a layer for which
    Keras infers the positive output shape [s] returns a batch of [b]
    samples of shape [s]. *)
Definition respects_shapes
           (layer_fn : layer -> list (tensor4 R) -> option (tensor4 R))
  : Prop :=
  forall l b ts ins s,
    framework_layer l = true -> (1 <= b)%nat ->
    Forall2 (tensor_of_shape b) ts ins ->
    compute_output_shape l ins = inr s ->
    positive3 s = true ->
    exists t, layer_fn l ts = Some t /\ tensor_of_shape b t s.

Fixpoint shape_eqb (s1 s2 : shape) : bool :=
  match s1, s2 with
  | [], [] => true
  | a :: s1', b :: s2' => (a =? b) && shape_eqb s1' s2'
  | _, _ => false
  end.

Definition known_activation (a : activation) : bool :=
  match activation_fn a with
  | Some _ => true
  | None => false
  end.

(** A node can be evaluated on inputs of the recorded shapes: its output
    shape is positive and is the one inferred from its inputs, an input
    layer declares [in_shape], a reflection padding keeps its margins below
    the sizes it pads, and an activation names a known function. *)
Definition node_check (in_shape : shape) (shapes : list shape) (n : node)
  : bool :=
  positive3 (n_output n)
  && match all_some (map (nth_error shapes) (n_inputs n)) with
     | None => false
     | Some ins =>
         match compute_output_shape (n_layer n) ins with
         | inr s => shape_eqb s (n_output n)
         | inl _ => false
         end
         && match n_layer n with
            | InputLayer s _ => shape_eqb s in_shape
            | ReflectionPadding2D (pw, ph) =>
                match ins with
                | [[h; w; c]] => (ph <? h) && (pw <? w)
                | _ => false
                end
            | Act a => known_activation a
            | External _ => false
            | _ => true
            end
     end.

Fixpoint check_nodes (in_shape : shape) (shapes : list shape)
         (g : list node) : bool :=
  match g with
  | [] => true
  | n :: g' =>
      node_check in_shape shapes n
      && check_nodes in_shape (shapes ++ [n_output n]) g'
  end.

(** The value [v] computed for node [n]: a batch of [b] samples of the
    node's static shape and, at an activation layer, the image of a tensor
    under the activation's function. *)
Definition value_ok (b : nat) (v : tensor4 R) (n : node) : Prop :=
  tensor_of_shape b v (n_output n)
  /\ forall a, n_layer n = Act a ->
               exists fn t, activation_fn a = Some fn /\ v = tmap4 fn t.

(** A stand-in for the framework layers: zeros of the inferred shape. *)
Definition zeros4 (b h w c : nat) : tensor4 R :=
  repeat (repeat (repeat (repeat 0%R c) w) h) b.

Definition measure (t : tensor4 R) : shape :=
  [Z.of_nat (List.length (hd [] t));
   Z.of_nat (List.length (hd [] (hd [] t)));
   Z.of_nat (List.length (hd [] (hd [] (hd [] t))))].

Definition constant_layers (l : layer) (ts : list (tensor4 R))
  : option (tensor4 R) :=
  match compute_output_shape l (map measure ts) with
  | inr [h; w; c] =>
      Some (zeros4 (List.length (hd [] ts))
                   (Z.to_nat h) (Z.to_nat w) (Z.to_nat c))
  | _ => None
  end.

(** Every node but the first reads the node created just before it. *)
Fixpoint reads_previous_from (i : nat) (g : list node) : bool :=
  match g with
  | [] => true
  | n :: g' =>
      ((i =? 0)%nat || existsb (Nat.eqb (i - 1)) (n_inputs n))
      && reads_previous_from (S i) g'
  end.
(* ===================================================================== *)
(** * Running layer calls: equations of the builder monad *)
(* ===================================================================== *)

Lemma bind_ok {A B} (c : builder A) (k : A -> builder B) g a g' :
  c g = inr (a, g') -> bind c k g = k a g'.
Proof. intros H. unfold bind. now rewrite H. Qed.

Lemma call_ok l inputs s g :
  compute_output_shape l (map kt_shape inputs) = inr s ->
  call l inputs g =
  inr (mkTensor (List.length g) s, g ++ [mkNode l (map kt_node inputs) s]).
Proof. intros H. unfold call. now rewrite H. Qed.

(** A successful [call] returns a tensor of the inferred shape and appends
    exactly one node. *)
Lemma call_inv l inputs g x g' :
  call l inputs g = inr (x, g') ->
  compute_output_shape l (map kt_shape inputs) = inr (kt_shape x) /\
  g' = g ++ [mkNode l (map kt_node inputs) (kt_shape x)].
Proof.
  unfold call. destruct (compute_output_shape _ _) as [e|s]; [discriminate|].
  intros H. inversion H; subst. simpl. auto.
Qed.

Lemma bind_inv {A B} (c : builder A) (k : A -> builder B) g b g2 :
  bind c k g = inr (b, g2) ->
  exists a g1, c g = inr (a, g1) /\ k a g1 = inr (b, g2).
Proof.
  unfold bind. destruct (c g) as [e|[a g1]]; [discriminate|].
  intros H. eauto.
Qed.

Lemma half_up_pos h : 0 < h -> 0 < half_up h.
Proof.
  intros H. unfold half_up.
  apply Z.div_str_pos. lia.
Qed.

Lemma conv_same_stride2 h k : conv_output_length h k Same 2 = half_up h.
Proof. unfold conv_output_length, half_up. f_equal. lia. Qed.

Lemma conv_same_stride1 h k : conv_output_length h k Same 1 = h.
Proof. unfold conv_output_length. rewrite Z.div_1_r. lia. Qed.

Lemma conv_valid_stride1 h k : conv_output_length h k Valid 1 = h - k + 1.
Proof. unfold conv_output_length. rewrite Z.div_1_r. lia. Qed.

Lemma broadcast_dim_same i : broadcast_dim i i = inr i.
Proof.
  unfold broadcast_dim. destruct (i =? 1) eqn:E; [reflexivity|].
  now rewrite Z.eqb_refl.
Qed.

(** Whenever two axes merge and the first is not of size 1, the merged axis
    has the size of the first. *)
Lemma broadcast_dim_first i j r :
  i <> 1 -> broadcast_dim i j = inr r -> r = i.
Proof.
  unfold broadcast_dim. intros Hi.
  destruct (i =? 1) eqn:E1; [apply Z.eqb_eq in E1; contradiction|].
  destruct (j =? 1); [congruence|].
  destruct (i =? j); congruence.
Qed.

Lemma shape_add h w c :
  compute_output_shape Add [[h; w; c]; [h; w; c]] = inr [h; w; c].
Proof.
  unfold compute_output_shape. now rewrite !broadcast_dim_same.
Qed.

Lemma shape_add_eq h1 w1 c1 h2 w2 c2 :
  h1 = h2 -> w1 = w2 -> c1 = c2 ->
  compute_output_shape Add [[h1; w1; c1]; [h2; w2; c2]] = inr [h1; w1; c1].
Proof. intros; subst. apply shape_add. Qed.

Ltac ztrue :=
  repeat match goal with
  | |- context [?a <? ?b] =>
      let H := fresh in
      assert (H : (a <? b) = true) by (apply Z.ltb_lt; simpl; lia);
      rewrite H; clear H
  end.

Lemma shape_conv f ks st p ub a h w c :
  0 < f -> 0 < fst ks -> 0 < snd ks -> 0 < fst st -> 0 < snd st -> 0 < c ->
  0 < conv_output_length h (fst ks) p (fst st) ->
  0 < conv_output_length w (snd ks) p (snd st) ->
  compute_output_shape (Conv2D f ks st p ub a) [[h; w; c]] =
  inr [conv_output_length h (fst ks) p (fst st);
       conv_output_length w (snd ks) p (snd st); f].
Proof.
  intros. unfold compute_output_shape, pos2. ztrue. reflexivity.
Qed.

Lemma shape_deconv f ks st p ub a h w c :
  0 < f -> 0 < fst ks -> 0 < snd ks -> 0 < fst st -> 0 < snd st -> 0 < c ->
  0 < deconv_output_length h (fst ks) p (fst st) ->
  0 < deconv_output_length w (snd ks) p (snd st) ->
  compute_output_shape (Conv2DTranspose f ks st p ub a) [[h; w; c]] =
  inr [deconv_output_length h (fst ks) p (fst st);
       deconv_output_length w (snd ks) p (snd st); f].
Proof.
  intros. unfold compute_output_shape, pos2. ztrue. reflexivity.
Qed.

Lemma shape_pool ps st h w c :
  0 < fst ps -> 0 < snd ps -> 0 < fst st -> 0 < snd st ->
  0 < conv_output_length h (fst ps) Valid (fst st) ->
  0 < conv_output_length w (snd ps) Valid (snd st) ->
  compute_output_shape (MaxPooling2D ps st) [[h; w; c]] =
  inr [conv_output_length h (fst ps) Valid (fst st);
       conv_output_length w (snd ps) Valid (snd st); c].
Proof.
  intros. unfold compute_output_shape, pos2. ztrue. reflexivity.
Qed.

Lemma shape_conv_same2 f kh kw ub a h w c :
  0 < f -> 0 < kh -> 0 < kw -> 0 < c -> 0 < h -> 0 < w ->
  compute_output_shape (Conv2D f (kh, kw) (2, 2) Same ub a) [[h; w; c]] =
  inr [half_up h; half_up w; f].
Proof.
  intros. rewrite shape_conv; simpl fst; simpl snd;
    rewrite ?conv_same_stride2; try reflexivity;
    try apply half_up_pos; lia.
Qed.

Lemma shape_conv_same1 f kh kw ub a h w c :
  0 < f -> 0 < kh -> 0 < kw -> 0 < c -> 0 < h -> 0 < w ->
  compute_output_shape (Conv2D f (kh, kw) (1, 1) Same ub a) [[h; w; c]] =
  inr [h; w; f].
Proof.
  intros. rewrite shape_conv; simpl fst; simpl snd;
    rewrite ?conv_same_stride1; try reflexivity; lia.
Qed.

Lemma shape_conv_valid1 f kh kw ub a h w c :
  0 < f -> 0 < kh -> 0 < kw -> 0 < c -> kh <= h -> kw <= w ->
  compute_output_shape (Conv2D f (kh, kw) (1, 1) Valid ub a) [[h; w; c]] =
  inr [h - kh + 1; w - kw + 1; f].
Proof.
  intros. rewrite shape_conv; simpl fst; simpl snd;
    rewrite ?conv_valid_stride1; try reflexivity; lia.
Qed.

Lemma shape_deconv_square f k ub a h w c :
  0 < f -> 0 < k -> 0 < c -> 0 < h -> 0 < w ->
  compute_output_shape (Conv2DTranspose f (k, k) (k, k) Valid ub a)
                       [[h; w; c]] =
  inr [h * k; w * k; f].
Proof.
  intros. rewrite shape_deconv; simpl fst; simpl snd;
    unfold deconv_output_length; rewrite ?Z.sub_diag; simpl Z.max;
    rewrite ?Z.add_0_r; try reflexivity; nia.
Qed.

Lemma shape_deconv_same f kh kw sh sw ub a h w c :
  0 < f -> 0 < kh -> 0 < kw -> 0 < sh -> 0 < sw -> 0 < c ->
  0 < h -> 0 < w ->
  compute_output_shape (Conv2DTranspose f (kh, kw) (sh, sw) Same ub a)
                       [[h; w; c]] =
  inr [h * sh; w * sw; f].
Proof.
  intros. rewrite shape_deconv; simpl fst; simpl snd;
    unfold deconv_output_length; try reflexivity; nia.
Qed.

Lemma shape_pool_2_1 h w c :
  1 < h -> 1 < w ->
  compute_output_shape (MaxPooling2D (2, 2) (1, 1)) [[h; w; c]] =
  inr [h - 1; w - 1; c].
Proof.
  intros. rewrite shape_pool; simpl fst; simpl snd;
    rewrite ?conv_valid_stride1; try lia.
  replace (h - 2 + 1) with (h - 1) by lia.
  replace (w - 2 + 1) with (w - 1) by lia.
  reflexivity.
Qed.

Lemma shape_reflect pw ph h w c :
  0 <= pw -> 0 <= ph ->
  compute_output_shape (ReflectionPadding2D (pw, ph)) [[h; w; c]] =
  inr [h + 2 * ph; w + 2 * pw; c].
Proof.
  intros. unfold compute_output_shape.
  assert (E1 : (pw <? 0) = false) by (apply Z.ltb_ge; lia).
  assert (E2 : (ph <? 0) = false) by (apply Z.ltb_ge; lia).
  now rewrite E1, E2.
Qed.


(* ===================================================================== *)
(** * The block builders, run on a tensor of known shape *)
(* ===================================================================== *)

Ltac shape_side :=
  simpl fst; simpl snd;
  rewrite ?conv_same_stride2, ?conv_same_stride1, ?conv_valid_stride1;
  unfold deconv_output_length;
  repeat apply half_up_pos;
  try lia.

(** Run the next layer call of a builder on a goal [bind (call ..) .. = _]. *)
Ltac call_step :=
  match goal with
  | |- bind (call ?l ?ins) ?k ?g = _ =>
      erewrite (bind_ok (call l ins) k g);
      [ | apply call_ok; simpl map;
          first [ apply shape_conv; shape_side
                | apply shape_deconv; shape_side
                | apply shape_pool; shape_side
                | apply shape_reflect; lia
                | apply shape_add
                | reflexivity ] ]
  end.

Lemma downsample_run x f a g h w c :
  kt_shape x = [h; w; c] -> 0 < f -> 0 < h -> 0 < w -> 0 < c ->
  exists x' g',
    downsample x f (Some a) default_kernel_size sample_default_strides
               Same false g = inr (x', g')
    /\ kt_shape x' = [half_up h; half_up w; f]
    /\ map n_layer g' = map n_layer g ++
         [Conv2D f (3, 3) (2, 2) Same false None;
          InstanceNormalization; Act a].
Proof.
  intros Hx Hf Hh Hw Hc. destruct x as [i s]. simpl in Hx. subst s.
  unfold downsample, default_kernel_size, sample_default_strides.
  do 2 eexists. split; [|split].
  - do 3 call_step. unfold ret. reflexivity.
  - simpl. rewrite !conv_same_stride2. reflexivity.
  - rewrite !map_app, <- !app_assoc. reflexivity.
Qed.

Lemma upsample_run x f a g h w c :
  kt_shape x = [h; w; c] -> 0 < f -> 0 < h -> 0 < w -> 0 < c ->
  exists x' g',
    upsample x f (Some a) default_kernel_size sample_default_strides
             Same false g = inr (x', g')
    /\ kt_shape x' = [h * 2; w * 2; f]
    /\ map n_layer g' = map n_layer g ++
         [Conv2DTranspose f (3, 3) (2, 2) Same false None;
          InstanceNormalization; Act a].
Proof.
  intros Hx Hf Hh Hw Hc. destruct x as [i s]. simpl in Hx. subst s.
  unfold upsample, default_kernel_size, sample_default_strides.
  do 2 eexists. split; [|split].
  - do 3 call_step. unfold ret. reflexivity.
  - reflexivity.
  - rewrite !map_app, <- !app_assoc. reflexivity.
Qed.

Lemma residual_block_run x a ub g h w c :
  kt_shape x = [h; w; c] -> 0 < h -> 0 < w -> 0 < c ->
  exists x' g',
    residual_block x a default_kernel_size residual_default_strides
                   Valid ub g = inr (x', g')
    /\ kt_shape x' = [h; w; c]
    /\ map n_layer g' = map n_layer g ++
         [ReflectionPadding2D (1, 1);
          Conv2D c (3, 3) (1, 1) Valid ub None;
          InstanceNormalization; Act a;
          ReflectionPadding2D (1, 1);
          Conv2D c (3, 3) (1, 1) Valid ub None;
          InstanceNormalization; Add].
Proof.
  intros Hx Hh Hw Hc. destruct x as [i s]. simpl in Hx. subst s.
  unfold residual_block, default_kernel_size, residual_default_strides.
  unfold last_dim. simpl kt_shape. simpl rev.
  do 2 eexists. split; [|split].
  - erewrite bind_ok by reflexivity.
    do 7 call_step.
    erewrite bind_ok.
    2:{ apply call_ok. simpl map. apply shape_add_eq;
          simpl fst; simpl snd; rewrite ?conv_valid_stride1; lia. }
    unfold ret. reflexivity.
  - simpl. reflexivity.
  - rewrite !map_app, <- !app_assoc. reflexivity.
Qed.

(* ===================================================================== *)
(** * The three loops of [get_resnet_generator] *)
(* ===================================================================== *)

Lemma downsampled_pos n : forall h, 0 < h -> 0 < downsampled n h.
Proof.
  induction n as [|n IH]; intros h Hh; simpl; [assumption|].
  apply IH, half_up_pos, Hh.
Qed.

Lemma down_loop (idxs : list Z) : forall f x g h w,
  kt_shape x = [h; w; f] -> 0 < f -> 0 < h -> 0 < w ->
  exists x' g',
    for_each idxs
      (fun _ '(filters, x) =>
         let filters := filters * 2 in
         x <- downsample x filters (Some relu)
                default_kernel_size sample_default_strides Same false ;;
         ret (filters, x))
      (f, x) g
    = inr ((f * 2 ^ Z.of_nat (List.length idxs), x'), g')
    /\ kt_shape x' = [downsampled (List.length idxs) h;
                      downsampled (List.length idxs) w;
                      f * 2 ^ Z.of_nat (List.length idxs)]
    /\ map n_layer g' = map n_layer g ++ down_stage (List.length idxs) f.
Proof.
  induction idxs as [|i idxs IH]; intros f x g h w Hx Hf Hh Hw.
  - exists x, g. simpl. rewrite Z.mul_1_r, app_nil_r. auto.
  - destruct (downsample_run x (f * 2) relu g h w f Hx)
      as (x1 & g1 & E1 & S1 & L1); try lia.
    destruct (IH (f * 2) x1 g1 (half_up h) (half_up w) S1)
      as (x2 & g2 & E2 & S2 & L2);
      try (apply half_up_pos; assumption); try lia.
    exists x2, g2.
    assert (P : f * 2 ^ Z.of_nat (List.length (i :: idxs))
                = f * 2 * 2 ^ Z.of_nat (List.length idxs)).
    { simpl List.length. rewrite Nat2Z.inj_succ, Z.pow_succ_r by lia. lia. }
    rewrite P. split; [|split].
    + simpl for_each. erewrite bind_ok.
      2:{ erewrite bind_ok by exact E1. reflexivity. }
      exact E2.
    + exact S2.
    + rewrite L2, L1, <- app_assoc. reflexivity.
Qed.

Lemma residual_loop (idxs : list Z) : forall x g h w c,
  kt_shape x = [h; w; c] -> 0 < h -> 0 < w -> 0 < c ->
  exists x' g',
    for_each idxs
      (fun _ x =>
         residual_block x relu
           default_kernel_size residual_default_strides Valid false)
      x g
    = inr (x', g')
    /\ kt_shape x' = [h; w; c]
    /\ map n_layer g' = map n_layer g ++
         List.concat (repeat (residual_layers c) (List.length idxs)).
Proof.
  induction idxs as [|i idxs IH]; intros x g h w c Hx Hh Hw Hc.
  - exists x, g. simpl. rewrite app_nil_r. auto.
  - destruct (residual_block_run x relu false g h w c Hx Hh Hw Hc)
      as (x1 & g1 & E1 & S1 & L1).
    destruct (IH x1 g1 h w c S1 Hh Hw Hc) as (x2 & g2 & E2 & S2 & L2).
    exists x2, g2. split; [|split].
    + simpl for_each. erewrite bind_ok by exact E1. exact E2.
    + exact S2.
    + rewrite L2, L1, <- app_assoc. reflexivity.
Qed.

Lemma div_pow2_pos f n : 0 < f / 2 ^ Z.of_nat (S n) ->
  0 < f / 2 /\ 0 < f / 2 / 2 ^ Z.of_nat n.
Proof.
  intros H.
  assert (E : f / 2 ^ Z.of_nat (S n) = f / 2 / 2 ^ Z.of_nat n).
  { rewrite Nat2Z.inj_succ, Z.pow_succ_r by lia.
    rewrite Z.div_div by lia. reflexivity. }
  rewrite E in H. split; [|assumption].
  assert (P : 0 < 2 ^ Z.of_nat n) by (apply Z.pow_pos_nonneg; lia).
  destruct (Z_lt_le_dec 0 (f / 2)) as [L|L]; [assumption|].
  exfalso.
  assert (f / 2 / 2 ^ Z.of_nat n <= 0).
  { apply Z.div_le_upper_bound; lia. }
  lia.
Qed.

Lemma up_loop (idxs : list Z) : forall f x g h w c,
  kt_shape x = [h; w; c] -> 0 < h -> 0 < w -> 0 < c ->
  0 < f / 2 ^ Z.of_nat (List.length idxs) ->
  exists x' g' c',
    for_each idxs
      (fun _ '(filters, x) =>
         let filters := filters / 2 in
         x <- upsample x filters (Some relu)
                default_kernel_size sample_default_strides Same false ;;
         ret (filters, x))
      (f, x) g
    = inr ((f / 2 ^ Z.of_nat (List.length idxs), x'), g')
    /\ kt_shape x' = [h * 2 ^ Z.of_nat (List.length idxs);
                      w * 2 ^ Z.of_nat (List.length idxs); c']
    /\ 0 < c'
    /\ map n_layer g' = map n_layer g ++ up_stage (List.length idxs) f.
Proof.
  induction idxs as [|i idxs IH]; intros f x g h w c Hx Hh Hw Hc Hf.
  - exists x, g, c. simpl. rewrite Z.div_1_r, !Z.mul_1_r, app_nil_r. auto.
  - simpl List.length in *.
    destruct (div_pow2_pos _ _ Hf) as [Hf1 Hf2].
    destruct (upsample_run x (f / 2) relu g h w c Hx Hf1 Hh Hw Hc)
      as (x1 & g1 & E1 & S1 & L1).
    destruct (IH (f / 2) x1 g1 (h * 2) (w * 2) (f / 2) S1)
      as (x2 & g2 & c2 & E2 & S2 & P2 & L2); try lia.
    exists x2, g2, c2.
    assert (P : forall a, a * 2 ^ Z.of_nat (S (List.length idxs))
                = a * 2 * 2 ^ Z.of_nat (List.length idxs)).
    { intros a. rewrite Nat2Z.inj_succ, Z.pow_succ_r by lia. lia. }
    assert (Q : f / 2 ^ Z.of_nat (S (List.length idxs))
                = f / 2 / 2 ^ Z.of_nat (List.length idxs)).
    { rewrite Nat2Z.inj_succ, Z.pow_succ_r by lia.
      rewrite Z.div_div by lia. reflexivity. }
    rewrite !P, Q. split; [|split; [|split]].
    + simpl for_each. erewrite bind_ok.
      2:{ erewrite bind_ok by exact E1. reflexivity. }
      exact E2.
    + exact S2.
    + exact P2.
    + rewrite L2, L1, <- app_assoc. reflexivity.
Qed.

(* ===================================================================== *)
(** * Reasoning rules for [runs_to] *)
(* ===================================================================== *)

Lemma runs_bind {A B} (c : builder A) (k : A -> builder B) g Q :
  runs_to c g (fun a g' => runs_to (k a) g' Q) -> runs_to (bind c k) g Q.
Proof.
  intros (a & g' & E & b & g'' & E' & HQ).
  exists b, g''. split; [|assumption].
  now rewrite (bind_ok c k g a g' E).
Qed.

Lemma runs_call l inputs g s (Q : keras_tensor -> graph -> Prop) :
  compute_output_shape l (map kt_shape inputs) = inr s ->
  Q (mkTensor (List.length g) s) (g ++ [mkNode l (map kt_node inputs) s]) ->
  runs_to (call l inputs) g Q.
Proof.
  intros H HQ. do 2 eexists. split; [apply call_ok, H|exact HQ].
Qed.

Lemma runs_ret {A} (a : A) g (Q : A -> graph -> Prop) :
  Q a g -> runs_to (ret a) g Q.
Proof. intros HQ. exists a, g. split; [reflexivity|assumption]. Qed.

Lemma runs_exact {A} (c : builder A) g a g' (Q : A -> graph -> Prop) :
  c g = inr (a, g') -> Q a g' -> runs_to c g Q.
Proof. intros E HQ. exists a, g'. auto. Qed.

Lemma build_model_runs g0 c name (P : Model -> Prop) :
  runs_to c g0 (fun io g => P (mkModel (fst io) (snd io) g name)) ->
  exists m, build_model g0 c name = inr m /\ P m.
Proof.
  intros ([i o] & g & E & HP). unfold build_model. rewrite E.
  eexists. split; [reflexivity|exact HP].
Qed.

(** One layer call inside a [runs_to] goal; node numbers are brought to
    normal form as the graph grows. *)
Ltac run_call :=
  apply runs_bind; eapply runs_call;
  [ simpl map;
    first [ apply shape_conv_same2; shape_side
          | apply shape_conv_same1; shape_side
          | apply shape_conv_valid1; shape_side
          | apply shape_deconv_square; shape_side
          | apply shape_deconv_same; shape_side
          | apply shape_pool_2_1; shape_side
          | apply shape_reflect; lia
          | reflexivity ]
  | rewrite ?length_app;
    cbn [List.length map kt_node kt_shape fst snd Nat.add] ].

Lemma length_range n : List.length (range n) = Z.to_nat n.
Proof. unfold range. now rewrite length_map, length_seq. Qed.

(** The generator's construction, for [n], [m] and [k] loop iterations. *)
Lemma resnet_generator_runs filters N M K name :
  0 < filters ->
  0 < filters * 2 ^ Z.of_nat (Z.to_nat N) / 2 ^ Z.of_nat (Z.to_nat K) ->
  exists m,
    get_resnet_generator filters N M K name = inr m
    /\ (input_shapes m = [[256; 256; 3]]
        /\ output_shape m =
             [downsampled (Z.to_nat N) 256 * 2 ^ Z.of_nat (Z.to_nat K);
              downsampled (Z.to_nat N) 256 * 2 ^ Z.of_nat (Z.to_nat K); 3]
        /\ layers_of m =
             [InputLayer [256; 256; 3] None;
              ReflectionPadding2D (3, 3);
              Conv2D filters (7, 7) (1, 1) Valid false None;
              InstanceNormalization; Act relu]
             ++ down_stage (Z.to_nat N) filters
             ++ List.concat
                  (repeat
                     (residual_layers (filters * 2 ^ Z.of_nat (Z.to_nat N)))
                     (Z.to_nat M))
             ++ up_stage (Z.to_nat K) (filters * 2 ^ Z.of_nat (Z.to_nat N))
             ++ [ReflectionPadding2D (3, 3);
                 Conv2D 3 (7, 7) (1, 1) Valid true None;
                 Act tanh_act]
        /\ m_name m = name).
Proof.
  intros Hf Hup. unfold get_resnet_generator.
  apply (build_model_runs [] _ name (fun m => _ /\ _ /\ _ /\ _)).
  do 5 run_call.
  (* Downsampling *)
  apply runs_bind.
  match goal with
  | |- runs_to (for_each ?idxs _ (?f, ?x)) ?g _ =>
      destruct (down_loop idxs f x g 256 256) as (x1 & g1 & E1 & S1 & L1);
      [reflexivity | lia | lia | lia |]
  end.
  eapply runs_exact; [exact E1|]. clear E1.
  (* Residual blocks *)
  apply runs_bind.
  rewrite length_range in *.
  pose proof (downsampled_pos (Z.to_nat N) 256 ltac:(lia)) as Hd.
  assert (Hc : 0 < filters * 2 ^ Z.of_nat (Z.to_nat N)).
  { apply Z.mul_pos_pos; [lia|]. apply Z.pow_pos_nonneg; lia. }
  match goal with
  | |- runs_to (for_each ?idxs _ ?x) ?g _ =>
      destruct (residual_loop idxs x g _ _ _ S1 Hd Hd Hc)
        as (x2 & g2 & E2 & S2 & L2)
  end.
  eapply runs_exact; [exact E2|]. clear E2.
  (* Upsampling *)
  apply runs_bind.
  rewrite length_range in *.
  match goal with
  | |- runs_to (for_each ?idxs _ (?f, ?x)) ?g _ =>
      destruct (up_loop idxs f x g _ _ _ S2 Hd Hd Hc)
        as (x3 & g3 & c3 & E3 & S3 & P3 & L3);
      [rewrite length_range; exact Hup|]
  end.
  eapply runs_exact; [exact E3|]. clear E3.
  rewrite length_range in *.
  destruct x3 as [i3 s3]. simpl in S3. subst s3.
  assert (Hk : 0 < 2 ^ Z.of_nat (Z.to_nat K)) by (apply Z.pow_pos_nonneg; lia).
  (* Final block *)
  run_call.
  apply runs_bind; eapply runs_call.
  { simpl map. apply shape_conv_valid1; nia. }
  run_call.
  apply runs_ret. simpl fst. simpl snd.
  unfold input_shapes, output_shape, layers_of. simpl m_inputs.
  simpl m_outputs. simpl m_graph. simpl m_name.
  split; [reflexivity|]. split; [|split; [|reflexivity]].
  - simpl. f_equal; [lia|]. f_equal. lia.
  - rewrite !map_app, L3, L2, L1. simpl map.
    rewrite <- !app_assoc. reflexivity.
Qed.

(* ===================================================================== *)
(** * [get_resnet_generator]: layer sequence and shapes *)
(* ===================================================================== *)

Lemma down_stage_from n : forall f s,
  down_stage n (f * 2 ^ Z.of_nat s) =
  flat_map (fun i => downsample_layers (f * 2 ^ i))
           (map Z.of_nat (seq (S s) n)).
Proof.
  induction n as [|n IH]; intros f s; [reflexivity|].
  simpl down_stage. cbn [seq map flat_map].
  assert (E : f * 2 ^ Z.of_nat s * 2 = f * 2 ^ Z.of_nat (S s)).
  { rewrite Nat2Z.inj_succ, Z.pow_succ_r by lia. lia. }
  rewrite E, IH. reflexivity.
Qed.

Lemma up_stage_from n : forall f s,
  up_stage n (f / 2 ^ Z.of_nat s) =
  flat_map (fun j => upsample_layers (f / 2 ^ j))
           (map Z.of_nat (seq (S s) n)).
Proof.
  induction n as [|n IH]; intros f s; [reflexivity|].
  simpl up_stage. cbn [seq map flat_map].
  assert (E : f / 2 ^ Z.of_nat s / 2 = f / 2 ^ Z.of_nat (S s)).
  { rewrite Nat2Z.inj_succ, Z.pow_succ_r by lia.
    assert (P : 0 < 2 ^ Z.of_nat s) by (apply Z.pow_pos_nonneg; lia).
    rewrite Z.div_div by lia. f_equal. lia. }
  rewrite E, IH. reflexivity.
Qed.

Lemma stage_layers_closed filters N M K :
  [InputLayer [256; 256; 3] None;
   ReflectionPadding2D (3, 3);
   Conv2D filters (7, 7) (1, 1) Valid false None;
   InstanceNormalization; Act relu]
  ++ down_stage (Z.to_nat N) filters
  ++ List.concat
       (repeat (residual_layers (filters * 2 ^ Z.of_nat (Z.to_nat N)))
               (Z.to_nat M))
  ++ up_stage (Z.to_nat K) (filters * 2 ^ Z.of_nat (Z.to_nat N))
  ++ [ReflectionPadding2D (3, 3);
      Conv2D 3 (7, 7) (1, 1) Valid true None;
      Act tanh_act]
  = resnet_generator_layers filters N M K.
Proof.
  unfold resnet_generator_layers, steps.
  assert (E : Z.of_nat (Z.to_nat N) = Z.max 0 N) by lia.
  rewrite E.
  pose proof (down_stage_from (Z.to_nat N) filters 0) as D.
  pose proof (up_stage_from (Z.to_nat K) (filters * 2 ^ Z.max 0 N) 0) as U.
  simpl Z.of_nat in D, U. rewrite Z.pow_0_r in D, U.
  rewrite Z.mul_1_r in D. rewrite Z.div_1_r in U.
  rewrite D, U. reflexivity.
Qed.

(** With as many upsampling as downsampling blocks, at most eight of each,
    the spatial size comes back to 256. *)
Lemma downsampled_256 (n : nat) :
  (n <= 8)%nat -> downsampled n 256 * 2 ^ Z.of_nat n = 256.
Proof.
  intros H.
  do 9 (destruct n as [|n]; [vm_compute; reflexivity|]).
  lia.
Qed.

Lemma downsampled_add a : forall b h,
  downsampled (a + b) h = downsampled b (downsampled a h).
Proof.
  induction a as [|a IH]; intros b h; [reflexivity|].
  simpl. apply IH.
Qed.

Lemma downsampled_one n : downsampled n 1 = 1.
Proof. induction n as [|n IH]; [reflexivity|exact IH]. Qed.

(** From eight downsampling blocks on, the map is 1x1. *)
Lemma downsampled_256_floor (n : nat) :
  (8 <= n)%nat -> downsampled n 256 = 1.
Proof.
  intros H. replace n with (8 + (n - 8))%nat by lia.
  rewrite downsampled_add.
  change (downsampled 8 256) with 1. apply downsampled_one.
Qed.

(** The output side [downsampled n 256 * 2^k] is 256 exactly when
    [k = min n 8]. *)
Lemma resnet_side_256_iff (n k : nat) :
  downsampled n 256 * 2 ^ Z.of_nat k = 256 <-> k = Nat.min n 8.
Proof.
  destruct (Nat.le_gt_cases n 8) as [Hn|Hn].
  - pose proof (downsampled_256 n Hn) as E.
    pose proof (downsampled_pos n 256 ltac:(lia)) as P.
    replace (Nat.min n 8) with n by lia.
    split.
    + intros H.
      assert (H' : downsampled n 256 * 2 ^ Z.of_nat k
                   = downsampled n 256 * 2 ^ Z.of_nat n) by congruence.
      apply Z.mul_reg_l in H'; [|lia].
      apply Z.pow_inj_r in H'; lia.
    + intros ->. exact E.
  - rewrite downsampled_256_floor by lia.
    replace (Nat.min n 8) with 8%nat by lia.
    rewrite Z.mul_1_l. change 256 with (2 ^ Z.of_nat 8).
    split.
    + intros H. apply Z.pow_inj_r in H; lia.
    + intros ->. reflexivity.
Qed.

Lemma tanh_bounded (x : R) : (-1 <= tanh x <= 1)%R.
Proof.
  unfold tanh, sinh, cosh.
  pose proof (exp_pos x) as Hp. pose proof (exp_pos (- x)) as Hn.
  assert (Hc : (0 < (exp x + exp (- x)) / 2)%R) by lra.
  split.
  - apply Rmult_le_reg_r with ((exp x + exp (- x)) / 2)%R; [assumption|].
    unfold Rdiv at 2. rewrite Rmult_assoc, Rinv_l by lra. lra.
  - apply Rmult_le_reg_r with ((exp x + exp (- x)) / 2)%R; [assumption|].
    unfold Rdiv at 1. rewrite Rmult_assoc, Rinv_l by lra. lra.
Qed.

Lemma Forall4_tmap4 {A B} (f : A -> B) (P : B -> Prop) (t : tensor4 A) :
  (forall a, P (f a)) -> Forall4 P (tmap4 f t).
Proof.
  intros H. unfold Forall4, tmap4.
  repeat (apply Forall_map, Forall_forall; intros ? _).
  apply H.
Qed.

(** C1, counterexample.  One downsampling block against two upsampling
    blocks is accepted by every layer, and the model that comes back maps a
    256x256x3 input to a 512x512x3 output. *)
Lemma get_resnet_generator_shape_counterexample :
  exists m,
    get_resnet_generator 64 1 5 2 None = inr m
    /\ input_shapes m = [[256; 256; 3]]
    /\ output_shape m = [512; 512; 3]
    /\ output_shape m <> [256; 256; 3].
Proof.
  eexists. split; [vm_compute; reflexivity|].
  repeat split; try reflexivity. vm_compute. discriminate.
Qed.

(** C1, amended.  For every positive [filters], every number of residual
    blocks and every name, when [num_downsampling_blocks] equals
    [num_upsample_blocks] and is at most 8, [get_resnet_generator] returns a
    model whose input shape and output shape are both (256, 256, 3). *)
Theorem get_resnet_generator_output_shape filters N M K name :
  0 < filters -> N = K -> K <= 8 ->
  exists m,
    get_resnet_generator filters N M K name = inr m
    /\ input_shapes m = [[256; 256; 3]]
    /\ output_shape m = [256; 256; 3].
Proof.
  intros Hf -> HK.
  assert (P : 0 < 2 ^ Z.of_nat (Z.to_nat K)) by (apply Z.pow_pos_nonneg; lia).
  destruct (resnet_generator_runs filters K M K name Hf)
    as (m & E & Hin & Hout & _).
  { rewrite Z.div_mul by lia. exact Hf. }
  exists m. split; [exact E|]. split; [exact Hin|].
  rewrite Hout, downsampled_256 by lia. reflexivity.
Qed.

Lemma get_resnet_generator_output_shape_witness :
  exists m,
    get_resnet_generator 64 2 5 2 None = inr m
    /\ input_shapes m = [[256; 256; 3]]
    /\ output_shape m = [256; 256; 3].
Proof.
  apply (get_resnet_generator_output_shape 64 2 5 2 None); lia.
Defined.

(** Exactly which block counts give back 256x256x3: the number of
    upsampling blocks has to be the smaller of the number of downsampling
    blocks and 8 (negative counts run no block). *)
Lemma get_resnet_generator_shape_iff filters N M K name m :
  get_resnet_generator filters N M K name = inr m ->
  0 < filters ->
  0 < filters * 2 ^ Z.of_nat (Z.to_nat N) / 2 ^ Z.of_nat (Z.to_nat K) ->
  (output_shape m = [256; 256; 3]
   <-> Z.to_nat K = Nat.min (Z.to_nat N) 8).
Proof.
  intros E Hf Hup.
  destruct (resnet_generator_runs filters N M K name Hf Hup)
    as (m' & E' & _ & Hout & _).
  rewrite E in E'. inversion E'; subst m'. rewrite Hout.
  rewrite <- resnet_side_256_iff. split.
  - intros H. apply (f_equal (fun l => hd 0 l)) in H. exact H.
  - intros ->. reflexivity.
Qed.

(** Nine downsampling blocks shrink the map to 1x1 and keep it there, so
    nine upsampling blocks overshoot: equal block counts alone are not
    enough. *)
Lemma get_resnet_generator_nine_blocks :
  exists m,
    get_resnet_generator 64 9 0 9 None = inr m
    /\ output_shape m = [512; 512; 3].
Proof. eexists. split; vm_compute; reflexivity. Qed.


(* ===================================================================== *)
(** * [residual_block], [downsample] and [upsample] *)
(* ===================================================================== *)

Lemma shape_conv_inv f ks st p ub a ins s' :
  compute_output_shape (Conv2D f ks st p ub a) ins = inr s' ->
  exists h' w', s' = [h'; w'; f].
Proof.
  destruct ins as [|[|h [|w [|c [|d s]]]] [|s2 ins]]; simpl;
    try discriminate.
  destruct (negb _); [discriminate|].
  destruct (_ && _); [|discriminate].
  intros H. inversion H. eauto.
Qed.

Lemma shape_add_inv h1 w1 c1 h2 w2 c2 s :
  compute_output_shape Add [[h1; w1; c1]; [h2; w2; c2]] = inr s ->
  exists rh rw rc,
    s = [rh; rw; rc]
    /\ broadcast_dim h1 h2 = inr rh
    /\ broadcast_dim w1 w2 = inr rw
    /\ broadcast_dim c1 c2 = inr rc.
Proof.
  simpl.
  destruct (broadcast_dim h1 h2) as [e|rh];
    destruct (broadcast_dim w1 w2) as [e'|rw];
    destruct (broadcast_dim c1 c2) as [e''|rc]; try discriminate.
  intros H. inversion H. exists rh, rw, rc. auto.
Qed.

(** Peel one [call] off a successful run. *)
Ltac inv_call H x g Hs :=
  let Hc := fresh "Hc" in
  apply bind_inv in H as (x & g & Hc & H);
  apply call_inv in Hc as (Hs & ->).

(** What a successful [residual_block] call returns: the skip input
    broadcast against a branch that has the input's channel count. *)
Lemma residual_block_inv x a ks st p ub g y g' h w c :
  kt_shape x = [h; w; c] ->
  residual_block x a ks st p ub g = inr (y, g') ->
  exists h2 w2 rh rw,
    kt_shape y = [rh; rw; c]
    /\ broadcast_dim h h2 = inr rh
    /\ broadcast_dim w w2 = inr rw.
Proof.
  intros Hx H. destruct x as [i s]. simpl in Hx. subst s.
  unfold residual_block, last_dim in H. simpl kt_shape in H. simpl rev in H.
  apply bind_inv in H as (d & g0 & Hd & H).
  unfold ret in Hd. inversion Hd; subst d g0. clear Hd.
  inv_call H x1 g1 S1. inv_call H x2 g2 S2. inv_call H x3 g3 S3.
  inv_call H x4 g4 S4. inv_call H x5 g5 S5. inv_call H x6 g6 S6.
  inv_call H x7 g7 S7. inv_call H x8 g8 S8.
  unfold ret in H. inversion H; subst y g'. clear H.
  simpl map in *.
  apply shape_conv_inv in S6 as (h2 & w2 & E6).
  simpl in S7. rewrite E6 in S7. inversion S7 as [E7].
  rewrite <- E7 in S8.
  apply shape_add_inv in S8 as (rh & rw & rc & E8 & Bh & Bw & Bc).
  rewrite broadcast_dim_same in Bc. inversion Bc; subst rc.
  exists h2, w2, rh, rw. auto.
Qed.

(** C3, counterexample.  Conv2D accepts padding "same", but then each
    padded convolution grows the 64x64x256 map by two and the final
    [layers.add] rejects (64, 64, 256) against (68, 68, 256): no tensor of
    the input's shape comes back. *)
Lemma residual_block_same_padding_counterexample :
  let g := [mkNode (InputLayer [64; 64; 256] None) [] [64; 64; 256]] in
  let x := mkTensor 0 [64; 64; 256] in
  residual_block x relu (3, 3) (1, 1) Same false g
  = inl (ValueError "Operands could not be broadcast together")
  /\ ~ (exists y g',
          residual_block x relu (3, 3) (1, 1) Same false g = inr (y, g')
          /\ kt_shape y = kt_shape x).
Proof.
  cbv zeta. split; [vm_compute; reflexivity|].
  intros (y & g' & E & _). vm_compute in E. discriminate.
Qed.

(** A 1x1 map meets the broadcasting rule of [layers.add]: with a 1x1
    kernel the branch is 5x5 and the sum takes the branch's size. *)
Lemma residual_block_broadcast_example :
  let g := [mkNode (InputLayer [1; 1; 8] None) [] [1; 1; 8]] in
  let x := mkTensor 0 [1; 1; 8] in
  exists y g',
    residual_block x relu (1, 1) (1, 1) Valid false g = inr (y, g')
    /\ kt_shape y = [5; 5; 8].
Proof. cbv zeta. do 2 eexists. split; vm_compute; reflexivity. Qed.

(** C3, amended.  Let x have shape (H, W, C) with H, W, C >= 1.  With the
    default kernel_size (3, 3), strides (1, 1) and padding "valid" (any
    activation, any use_bias), [residual_block] returns a tensor of x's
    shape.  If moreover H, W >= 2, then with any kernel_size, strides,
    padding and use_bias, whenever [residual_block] returns, it returns a
    tensor of x's shape. *)
Theorem residual_block_preserves_shape x a ub g h w c :
  kt_shape x = [h; w; c] -> 1 <= h -> 1 <= w -> 1 <= c ->
  (exists y g',
     residual_block x a default_kernel_size residual_default_strides
                    Valid ub g = inr (y, g')
     /\ kt_shape y = kt_shape x)
  /\ (2 <= h -> 2 <= w ->
      forall ks st p ub' y g',
        residual_block x a ks st p ub' g = inr (y, g') ->
        kt_shape y = kt_shape x).
Proof.
  intros Hx Hh Hw Hc. split.
  - destruct (residual_block_run x a ub g h w c Hx)
      as (y & g' & E & S & _); try lia.
    exists y, g'. rewrite Hx. auto.
  - intros Hh2 Hw2 ks st p ub' y g' E.
    destruct (residual_block_inv _ _ _ _ _ _ _ _ _ _ _ _ Hx E)
      as (h2 & w2 & rh & rw & S & Bh & Bw).
    apply broadcast_dim_first in Bh; [|lia].
    apply broadcast_dim_first in Bw; [|lia].
    subst. rewrite Hx. exact S.
Qed.

Lemma residual_block_preserves_shape_witness :
  let g := [mkNode (InputLayer [64; 64; 256] None) [] [64; 64; 256]] in
  let x := mkTensor 0 [64; 64; 256] in
  (exists y g',
     residual_block x relu default_kernel_size residual_default_strides
                    Valid false g = inr (y, g')
     /\ kt_shape y = kt_shape x)
  /\ (forall ks st p ub' y g',
        residual_block x relu ks st p ub' g = inr (y, g') ->
        kt_shape y = kt_shape x).
Proof.
  cbv zeta.
  destruct (residual_block_preserves_shape
              (mkTensor 0 [64; 64; 256]) relu false
              [mkNode (InputLayer [64; 64; 256] None) [] [64; 64; 256]]
              64 64 256) as [D G]; [reflexivity | lia | lia | lia |].
  split; [exact D|]. apply G; lia.
Defined.

(** C4, counterexample.  A 5x5 map is downsampled to 3x3 and upsampled to
    6x6. *)
Lemma downsample_upsample_odd_counterexample :
  let g := [mkNode (InputLayer [5; 5; 3] None) [] [5; 5; 3]] in
  let x := mkTensor 0 [5; 5; 3] in
  exists z g',
    downsample_then_upsample x 8 (Some relu) (Some relu) (3, 3) (3, 3)
                             false false g = inr (z, g')
    /\ kt_shape z = [6; 6; 8]
    /\ firstn 2 (kt_shape z) <> firstn 2 (kt_shape x).
Proof.
  cbv zeta. do 2 eexists. split; [vm_compute; reflexivity|].
  split; [reflexivity|]. vm_compute. discriminate.
Qed.

Lemma half_up_double h : half_up h * 2 = h + h mod 2.
Proof.
  unfold half_up.
  pose proof (Z.div_mod h 2 ltac:(lia)) as D.
  pose proof (Z.mod_pos_bound h 2 ltac:(lia)) as B.
  assert (C : h mod 2 = 0 \/ h mod 2 = 1) by lia.
  destruct C as [C|C]; rewrite C in *.
  - replace (h + 1) with (1 + (h / 2) * 2) by lia.
    rewrite Z.div_add by lia. simpl. lia.
  - replace (h + 1) with (0 + (h / 2 + 1) * 2) by lia.
    rewrite Z.div_add by lia. simpl. lia.
Qed.

(** C4, amended.  For x of shape (H, W, C) with positive sizes, positive
    [filters] and kernels, and any activations and biases, [downsample]
    followed by [upsample] with the same [filters] (default strides (2, 2),
    padding "same") returns a tensor of shape
    (H + H mod 2, W + W mod 2, filters); its spatial resolution is that of
    x exactly when H and W are both even. *)
Theorem downsample_upsample_resolution x filters a1 a2 k1 k2 ub1 ub2 g h w c :
  kt_shape x = [h; w; c] -> 0 < h -> 0 < w -> 0 < c -> 0 < filters ->
  0 < fst k1 -> 0 < snd k1 -> 0 < fst k2 -> 0 < snd k2 ->
  exists z g',
    downsample_then_upsample x filters a1 a2 k1 k2 ub1 ub2 g = inr (z, g')
    /\ kt_shape z = [h + h mod 2; w + w mod 2; filters]
    /\ (firstn 2 (kt_shape z) = firstn 2 (kt_shape x)
        <-> Z.even h = true /\ Z.even w = true).
Proof.
  intros Hx Hh Hw Hc Hf Hk1 Hk1' Hk2 Hk2'.
  destruct x as [i s]. simpl in Hx. subst s.
  destruct k1 as [k1h k1w], k2 as [k2h k2w]. simpl in *.
  assert (R : runs_to
                (downsample_then_upsample (mkTensor i [h; w; c]) filters a1 a2
                   (k1h, k1w) (k2h, k2w) ub1 ub2) g
                (fun z _ => kt_shape z = [half_up h * 2; half_up w * 2;
                                          filters])).
  { unfold downsample_then_upsample, downsample, upsample,
      sample_default_strides.
    apply runs_bind. do 2 run_call.
    destruct a1 as [a1|].
    - run_call. apply runs_ret. do 2 run_call.
      destruct a2 as [a2|]; [run_call|]; apply runs_ret; reflexivity.
    - apply runs_ret. do 2 run_call.
      destruct a2 as [a2|]; [run_call|]; apply runs_ret; reflexivity. }
  destruct R as (z & g' & E & S).
  exists z, g'. split; [exact E|].
  rewrite S, !half_up_double. split; [reflexivity|].
  cbn [firstn kt_shape].
  rewrite !Zeven_mod.
  pose proof (Z.mod_pos_bound h 2 ltac:(lia)).
  pose proof (Z.mod_pos_bound w 2 ltac:(lia)).
  split.
  - intros C. injection C as C1 C2.
    split; apply Z.eqb_eq; lia.
  - intros [C1 C2]. apply Z.eqb_eq in C1, C2.
    rewrite C1, C2, !Z.add_0_r. reflexivity.
Qed.

Lemma downsample_upsample_resolution_witness :
  let g := [mkNode (InputLayer [256; 256; 64] None) [] [256; 256; 64]] in
  let x := mkTensor 0 [256; 256; 64] in
  exists z g',
    downsample_then_upsample x 128 (Some relu) (Some relu) (3, 3) (3, 3)
                             false false g = inr (z, g')
    /\ kt_shape z = [256 + 256 mod 2; 256 + 256 mod 2; 128]
    /\ (firstn 2 (kt_shape z) = firstn 2 (kt_shape x)
        <-> Z.even 256 = true /\ Z.even 256 = true).
Proof.
  cbv zeta.
  apply (downsample_upsample_resolution _ 128 (Some relu) (Some relu)
           (3, 3) (3, 3) false false _ 256 256 64);
    simpl; solve [reflexivity | lia].
Defined.

(* ===================================================================== *)
(** * [ReflectionPadding2D.call] on concrete tensors *)
(* ===================================================================== *)

Section MirrorPad.
Context {X : Type}.
Implicit Types l : list X.

Lemma mirror_pad_0 l : mirror_pad 0 0 l = l.
Proof. unfold mirror_pad. simpl. apply app_nil_r. Qed.

Lemma length_mirror_pad p q l :
  (p < List.length l)%nat -> (q < List.length l)%nat ->
  List.length (mirror_pad p q l) = (p + List.length l + q)%nat.
Proof.
  intros Hp Hq. unfold mirror_pad.
  rewrite !length_app, length_rev, !length_firstn, !length_tl, length_rev.
  lia.
Qed.

Lemma nth_error_tl l i : nth_error (tl l) i = nth_error l (S i).
Proof. destruct l; [now destruct i|reflexivity]. Qed.

(** Every entry of the padded axis is the input entry at the reflected
    position. *)
Lemma nth_error_mirror_pad p l i :
  (p < List.length l)%nat -> (i < List.length l + 2 * p)%nat ->
  nth_error (mirror_pad p p l) i
  = nth_error l (reflect_index (List.length l) p i).
Proof.
  intros Hp Hi. unfold mirror_pad, reflect_index.
  assert (L1 : List.length (rev (firstn p (tl l))) = p).
  { rewrite length_rev, length_firstn, length_tl. lia. }
  rewrite nth_error_app, L1.
  destruct (Nat.ltb_spec i p) as [A1|A1].
  - rewrite nth_error_rev, length_firstn, length_tl.
    replace (Nat.min p (List.length l - 1)) with p by lia.
    destruct (Nat.ltb_spec i p) as [_|B]; [|lia].
    rewrite nth_error_firstn.
    destruct (Nat.ltb_spec (p - S i) p) as [_|B]; [|lia].
    rewrite nth_error_tl. f_equal. lia.
  - rewrite nth_error_app.
    destruct (Nat.ltb_spec (i - p) (List.length l)) as [A2|A2].
    + destruct (Nat.ltb_spec i (p + List.length l)) as [_|B]; [|lia].
      reflexivity.
    + destruct (Nat.ltb_spec i (p + List.length l)) as [B|_]; [lia|].
      rewrite nth_error_firstn.
      destruct (Nat.ltb_spec (i - p - List.length l) p) as [_|B]; [|lia].
      rewrite nth_error_tl, nth_error_rev.
      destruct (Nat.ltb_spec (S (i - p - List.length l)) (List.length l))
        as [_|B]; [|lia].
      f_equal. lia.
Qed.

Lemma In_firstn n : forall l x, In x (firstn n l) -> In x l.
Proof.
  induction n as [|n IH]; intros [|y l] x H; simpl in *; try contradiction.
  destruct H as [H|H]; [left; exact H|right; apply IH, H].
Qed.

Lemma In_mirror_pad p q l x : In x (mirror_pad p q l) -> In x l.
Proof.
  unfold mirror_pad. rewrite !in_app_iff, <- in_rev.
  intros [H|[H|H]]; [|exact H|].
  - apply In_firstn in H. destruct l; [contradiction|right; exact H].
  - apply In_firstn in H.
    assert (In x (rev l)) by (destruct (rev l); [contradiction|right; exact H]).
    now apply in_rev.
Qed.

Lemma mirror_pad_axis_ok (p q : nat) l :
  (p < List.length l)%nat -> (q < List.length l)%nat ->
  mirror_pad_axis (Z.of_nat p) (Z.of_nat q) l = inr (mirror_pad p q l).
Proof.
  intros Hp Hq. unfold mirror_pad_axis.
  assert (E1 : (Z.of_nat p <? 0) = false) by (apply Z.ltb_ge; lia).
  assert (E2 : (Z.of_nat q <? 0) = false) by (apply Z.ltb_ge; lia).
  assert (E3 : (Z.of_nat p <? Z.of_nat (List.length l)) = true)
    by (apply Z.ltb_lt; lia).
  assert (E4 : (Z.of_nat q <? Z.of_nat (List.length l)) = true)
    by (apply Z.ltb_lt; lia).
  rewrite E1, E2, E3, E4, !Nat2Z.id. reflexivity.
Qed.
End MirrorPad.

Lemma mapM_ok {X Y} (f : X -> result Y) (g : X -> Y) (l : list X) :
  (forall x, In x l -> f x = inr (g x)) -> mapM f l = inr (map g l).
Proof.
  induction l as [|x l IH]; intros H; [reflexivity|].
  simpl. rewrite (H x (or_introl eq_refl)), IH; [reflexivity|].
  intros y Hy. apply H. right. exact Hy.
Qed.

Section ReflectionPadding.
Context {A : Type}.
Implicit Types t : tensor4 A.

Lemma mirror_pad_axis_id {X} (l : list X) :
  (1 <= List.length l)%nat -> mirror_pad_axis 0 0 l = inr l.
Proof.
  intros H. change 0 with (Z.of_nat 0).
  rewrite mirror_pad_axis_ok by lia. now rewrite mirror_pad_0.
Qed.

(** On a non-empty tensor with margins below the spatial sizes, the call
    returns the reflect-padded tensor. *)
Lemma ReflectionPadding2D_call_ok t b h w c (pw ph : nat) :
  has_shape4 t b h w c ->
  (1 <= b)%nat -> (1 <= c)%nat -> (ph < h)%nat -> (pw < w)%nat ->
  ReflectionPadding2D_call (Z.of_nat pw, Z.of_nat ph) t
  = inr (reflect_pad4 ph pw t).
Proof.
  intros [Hb Ht] Hb1 Hc1 Hph Hpw.
  unfold ReflectionPadding2D_call, tf_pad_reflect.
  rewrite mirror_pad_axis_id by lia.
  apply mapM_ok. intros img Himg.
  rewrite Forall_forall in Ht. destruct (Ht img Himg) as [Hh Hrows].
  rewrite mirror_pad_axis_ok by lia.
  apply mapM_ok. intros row Hrow.
  apply In_mirror_pad in Hrow.
  rewrite Forall_forall in Hrows. destruct (Hrows row Hrow) as [Hw Hpx].
  rewrite mirror_pad_axis_ok by lia.
  rewrite (mapM_ok _ (fun px => px)).
  - now rewrite map_id.
  - intros px Hin. apply In_mirror_pad in Hin.
    rewrite Forall_forall in Hpx.
    apply mirror_pad_axis_id. rewrite (Hpx px Hin). exact Hc1.
Qed.

Lemma has_shape4_reflect_pad4 t b h w c (pw ph : nat) :
  has_shape4 t b h w c -> (ph < h)%nat -> (pw < w)%nat ->
  has_shape4 (reflect_pad4 ph pw t) b (h + 2 * ph) (w + 2 * pw) c.
Proof.
  intros [Hb Ht] Hph Hpw. unfold has_shape4, reflect_pad4.
  split; [now rewrite length_map|].
  apply Forall_map. rewrite Forall_forall in *. intros img Himg.
  destruct (Ht img Himg) as [Hh Hrows].
  split.
  - rewrite length_map, length_mirror_pad by lia. lia.
  - apply Forall_map. rewrite Forall_forall in *. intros row Hrow.
    apply In_mirror_pad in Hrow.
    destruct (Hrows row Hrow) as [Hw Hpx].
    split.
    + rewrite length_mirror_pad by lia. lia.
    + rewrite Forall_forall in *. intros px Hin.
      apply In_mirror_pad in Hin. apply Hpx, Hin.
Qed.

Lemma tget_some t b h w c n i j k :
  has_shape4 t b h w c ->
  (n < b)%nat -> (i < h)%nat -> (j < w)%nat -> (k < c)%nat ->
  exists v, tget t n i j k = Some v.
Proof.
  intros [Hb Ht] Hn Hi Hj Hk. unfold tget.
  destruct (nth_error t n) as [img|] eqn:E1;
    [|apply nth_error_None in E1; lia].
  rewrite Forall_forall in Ht.
  destruct (Ht img (nth_error_In _ _ E1)) as [Hh Hrows].
  destruct (nth_error img i) as [row|] eqn:E2;
    [|apply nth_error_None in E2; lia].
  rewrite Forall_forall in Hrows.
  destruct (Hrows row (nth_error_In _ _ E2)) as [Hw Hpx].
  destruct (nth_error row j) as [px|] eqn:E3;
    [|apply nth_error_None in E3; lia].
  rewrite Forall_forall in Hpx.
  pose proof (Hpx px (nth_error_In _ _ E3)) as Hc.
  destruct (nth_error px k) as [v|] eqn:E4;
    [eauto|apply nth_error_None in E4; lia].
Qed.

(** Entry (n, i, j, k) of the padded tensor is entry
    (n, reflect i, reflect j, k) of the input. *)
Lemma tget_reflect_pad4 t b h w c (pw ph : nat) n i j k :
  has_shape4 t b h w c -> (ph < h)%nat -> (pw < w)%nat ->
  (n < b)%nat -> (i < h + 2 * ph)%nat -> (j < w + 2 * pw)%nat ->
  tget (reflect_pad4 ph pw t) n i j k
  = tget t n (reflect_index h ph i) (reflect_index w pw j) k.
Proof.
  intros [Hb Ht] Hph Hpw Hn Hi Hj. unfold tget, reflect_pad4.
  rewrite nth_error_map.
  destruct (nth_error t n) as [img|] eqn:E1; [|reflexivity].
  cbn [option_map].
  rewrite Forall_forall in Ht.
  destruct (Ht img (nth_error_In _ _ E1)) as [Hh Hrows].
  rewrite nth_error_map, nth_error_mirror_pad by lia.
  rewrite Hh.
  destruct (nth_error img (reflect_index h ph i)) as [row|] eqn:E2;
    [|reflexivity].
  cbn [option_map].
  rewrite Forall_forall in Hrows.
  destruct (Hrows row (nth_error_In _ _ E2)) as [Hw Hpx].
  rewrite nth_error_mirror_pad by lia.
  rewrite Hw. reflexivity.
Qed.

Lemma reflect_index_lt n p i :
  (p < n)%nat -> (i < n + 2 * p)%nat -> (reflect_index n p i < n)%nat.
Proof.
  intros Hp Hi. unfold reflect_index.
  destruct (Nat.ltb_spec i p); [lia|].
  destruct (Nat.ltb_spec i (p + n)); lia.
Qed.
End ReflectionPadding.

(** C9, counterexample.  On a 1x1 image a margin of 1 is not below the
    axis size: [tf.pad] raises and no (1, 3, 3, 1) tensor comes back. *)
Lemma ReflectionPadding2D_call_counterexample :
  has_shape4 [[[[7]]]] 1 1 1 1
  /\ ReflectionPadding2D_call (1, 1) [[[[7]]]]
     = inl (InvalidArgumentError
              "paddings must be less than the dimension size")
  /\ ~ (exists t', ReflectionPadding2D_call (1, 1) [[[[7]]]] = inr t'
                   /\ has_shape4 t' 1 (1 + 2 * 1) (1 + 2 * 1) 1).
Proof.
  split; [|split].
  - unfold has_shape4. split; [reflexivity|]. repeat constructor.
  - reflexivity.
  - intros (t' & E & _). vm_compute in E. discriminate.
Qed.

(** C9, amended.  For every non-empty rank-4 tensor of shape
    (batch, height, width, channels) and every padding pair
    (width_pad, height_pad) of non-negative margins with
    height_pad < height and width_pad < width, [ReflectionPadding2D]
    returns a tensor of shape
    (batch, height + 2 * height_pad, width + 2 * width_pad, channels)
    whose entry (n, i, j, k) is the input's entry at the reflected
    position (n, reflect i, reflect j, k), so every border value is a copy
    of an input pixel and the interior is the input itself; the layer has
    no trainable weights. *)
Theorem ReflectionPadding2D_reflects {A} (t : tensor4 A) b h w c
        (width_pad height_pad : nat) :
  has_shape4 t b h w c ->
  (1 <= b)%nat -> (1 <= c)%nat ->
  (height_pad < h)%nat -> (width_pad < w)%nat ->
  exists t',
    ReflectionPadding2D_call (Z.of_nat width_pad, Z.of_nat height_pad) t
    = inr t'
    /\ has_shape4 t' b (h + 2 * height_pad) (w + 2 * width_pad) c
    /\ (forall n i j k,
          (n < b)%nat -> (i < h + 2 * height_pad)%nat ->
          (j < w + 2 * width_pad)%nat -> (k < c)%nat ->
          exists v,
            tget t' n i j k = Some v
            /\ tget t n (reflect_index h height_pad i)
                      (reflect_index w width_pad j) k = Some v)
    /\ (forall n i j k,
          (n < b)%nat -> (i < h)%nat -> (j < w)%nat ->
          tget t' n (height_pad + i) (width_pad + j) k = tget t n i j k)
    /\ forall channels,
         trainable_weights
           (ReflectionPadding2D (Z.of_nat width_pad, Z.of_nat height_pad))
           channels = [].
Proof.
  intros Hs Hb Hc Hph Hpw.
  exists (reflect_pad4 height_pad width_pad t).
  split; [apply (ReflectionPadding2D_call_ok t b h w c); assumption|].
  split; [apply has_shape4_reflect_pad4; assumption|].
  split; [|split; [|reflexivity]].
  - intros n i j k Hn Hi Hj Hk.
    rewrite (tget_reflect_pad4 t b h w c) by assumption.
    destruct (tget_some t b h w c n (reflect_index h height_pad i)
                (reflect_index w width_pad j) k Hs Hn) as [v Hv];
      try (apply reflect_index_lt; assumption); try assumption.
    exists v. auto.
  - intros n i j k Hn Hi Hj.
    rewrite (tget_reflect_pad4 t b h w c) by (assumption || lia).
    unfold reflect_index.
    destruct (Nat.ltb_spec (height_pad + i) height_pad); [lia|].
    destruct (Nat.ltb_spec (height_pad + i) (height_pad + h)); [|lia].
    destruct (Nat.ltb_spec (width_pad + j) width_pad); [lia|].
    destruct (Nat.ltb_spec (width_pad + j) (width_pad + w)); [|lia].
    f_equal; lia.
Qed.

Lemma ReflectionPadding2D_reflects_witness :
  exists t',
    ReflectionPadding2D_call (Z.of_nat 1, Z.of_nat 1)
      [[[[1]; [2]; [3]]; [[4]; [5]; [6]]; [[7]; [8]; [9]]]]
    = inr t'
    /\ t' = [[[[5]; [4]; [5]; [6]; [5]];
              [[2]; [1]; [2]; [3]; [2]];
              [[5]; [4]; [5]; [6]; [5]];
              [[8]; [7]; [8]; [9]; [8]];
              [[5]; [4]; [5]; [6]; [5]]]]
    /\ has_shape4 t' 1 (3 + 2 * 1) (3 + 2 * 1) 1.
Proof.
  destruct (ReflectionPadding2D_reflects
              [[[[1]; [2]; [3]]; [[4]; [5]; [6]]; [[7]; [8]; [9]]]]
              1 3 3 1 1 1) as (t' & E & S & _).
  - unfold has_shape4. split; [reflexivity|]. repeat constructor.
  - lia.
  - lia.
  - lia.
  - lia.
  - exists t'. split; [exact E|]. split; [|exact S].
    vm_compute in E. injection E as E. symmetry. exact E.
Defined.

(* ===================================================================== *)
(** * [get_discriminator] *)
(* ===================================================================== *)

(** One [downsample] call with an activation, inside a [runs_to] goal. *)
Ltac run_downsample :=
  apply runs_bind; apply runs_bind; unfold downsample;
  do 3 run_call; apply runs_ret; apply runs_ret.

Lemma discriminator_runs filters num_downsampling (s : string) :
  0 < filters ->
  exists m,
    get_discriminator filters num_downsampling (Some s) = inr m
    /\ (input_shapes m = [[256; 256; 3]]
        /\ output_shape m = [32; 32; 1]
        /\ layers_of m = discriminator_layers filters s
        /\ m_name m = Some s).
Proof.
  intros Hf. unfold get_discriminator, str_add.
  apply (build_model_runs [] _ (Some s) (fun m => _ /\ _ /\ _ /\ _)).
  do 3 run_call.
  apply runs_bind.
  change (range 3) with [0; 1; 2]. cbn [for_each].
  change (0 <? 2) with true. change (1 <? 2) with true.
  change (2 <? 2) with false. cbv iota.
  run_downsample. run_downsample. run_downsample.
  apply runs_ret. cbv beta iota.
  run_call. apply runs_ret.
  repeat split; vm_compute; reflexivity.
Qed.

(** C6.  For every positive [filters] (and any name and any
    [num_downsampling]) the discriminator is built and its output is a
    per-sample map (H', W', 1) with H' = W' = 32 < 256; the layers are the
    documented sequence, ending in the 4x4 stride-1 convolution to one
    channel, which carries no activation and is followed by none. *)
Theorem get_discriminator_patch_logits filters num_downsampling
        (name : string) :
  0 < filters ->
  exists m H' W',
    get_discriminator filters num_downsampling (Some name) = inr m
    /\ input_shapes m = [[256; 256; 3]]
    /\ output_shape m = [H'; W'; 1]
    /\ H' < 256 /\ W' < 256 /\ H' = 32 /\ W' = 32
    /\ layers_of m = discriminator_layers filters name
    /\ last (layers_of m) Add = Conv2D 1 (4, 4) (1, 1) Same true None
    /\ final_activation (last (layers_of m) Add) = None.
Proof.
  intros Hf.
  destruct (discriminator_runs filters num_downsampling name Hf)
    as (m & E & Hin & Hout & HL & _).
  exists m, 32, 32. rewrite HL.
  repeat split; try assumption; try lia; reflexivity.
Qed.

Lemma get_discriminator_patch_logits_witness :
  exists m H' W',
    get_discriminator 64 3 (Some "discriminator_X") = inr m
    /\ input_shapes m = [[256; 256; 3]]
    /\ output_shape m = [H'; W'; 1]
    /\ H' < 256 /\ W' < 256 /\ H' = 32 /\ W' = 32
    /\ layers_of m = discriminator_layers 64 "discriminator_X"
    /\ last (layers_of m) Add = Conv2D 1 (4, 4) (1, 1) Same true None
    /\ final_activation (last (layers_of m) Add) = None.
Proof.
  apply (get_discriminator_patch_logits 64 3 "discriminator_X"). lia.
Defined.

(** C10.  [get_discriminator] never reads [num_downsampling]: two calls
    that differ only in that argument return the same result, and a
    discriminator that is built has exactly three downsampling stages. *)
Theorem get_discriminator_ignores_num_downsampling filters v1 v2 name :
  get_discriminator filters v1 name = get_discriminator filters v2 name
  /\ (forall s, 0 < filters -> name = Some s ->
        exists m, get_discriminator filters v1 name = inr m
                  /\ get_discriminator filters v2 name = inr m
                  /\ downsampling_stages m = 3%nat).
Proof.
  split; [reflexivity|].
  intros s Hf ->.
  destruct (discriminator_runs filters v1 s Hf) as (m & E & _ & _ & HL & _).
  exists m. split; [exact E|]. split; [exact E|].
  unfold downsampling_stages. rewrite HL. reflexivity.
Qed.

Lemma get_discriminator_ignores_num_downsampling_witness :
  exists m, get_discriminator 64 3 (Some "disc") = inr m
            /\ get_discriminator 64 7 (Some "disc") = inr m
            /\ downsampling_stages m = 3%nat.
Proof.
  apply (proj2 (get_discriminator_ignores_num_downsampling
                  64 3 7 (Some "disc")) "disc"); [lia|reflexivity].
Defined.

(* ===================================================================== *)
(** * [efficientnet_generator] *)
(* ===================================================================== *)

Lemma keras_Model_runs g0 c name (P : Model -> Prop) :
  runs_to c g0
    (fun io g =>
       P (mkModel
            (map (retarget (ancestors g [kt_node (snd io)])) (fst io))
            (retarget (ancestors g [kt_node (snd io)]) (snd io))
            (map (renumber (ancestors g [kt_node (snd io)]))
                 (ancestors g [kt_node (snd io)]))
            name)) ->
  exists m, keras_Model g0 c name = inr m /\ P m.
Proof.
  intros ([i o] & g & E & HP). unfold keras_Model. rewrite E.
  eexists. split; [reflexivity|exact HP].
Qed.

(** The decoder is built on the backbone's graph; the model is what its
    last node depends on. *)
Lemma efficientnet_generator_runs model i tapped h w c :
  py_index (m_graph model) (-36) = inr (i, tapped) ->
  n_output tapped = [h; w; c] -> 0 < h -> 0 < w -> 0 < c ->
  exists m,
    efficientnet_generator model = inr m
    /\ (let len := List.length (m_graph model) in
        let kept :=
          ancestors (m_graph model ++ decoder_nodes i len h w)
                    [(len + 11)%nat] in
        m_inputs m = map (retarget kept) (m_inputs model)
        /\ m_graph m = map (renumber kept) kept
        /\ m_outputs m =
             retarget kept
               (mkTensor (len + 11) [32 * h - 23; 32 * w - 23; 3])).
Proof.
  intros Hi Hs Hh Hw Hc. unfold efficientnet_generator. rewrite Hi, Hs.
  apply (keras_Model_runs _ _ None (fun m => _ /\ _ /\ _)).
  cbv zeta.
  do 12 run_call. apply runs_ret.
  cbn [fst snd m_inputs m_graph m_outputs kt_node].
  match goal with
  | |- context [ancestors ?G [?o]] =>
      replace G
        with (m_graph model
              ++ decoder_nodes i (List.length (m_graph model)) h w);
      [replace o with (List.length (m_graph model) + 11)%nat by lia|]
  end.
  - split; [reflexivity|]. split; [reflexivity|].
    unfold retarget. cbn [kt_node kt_shape].
    replace ((((h * 2 - 1) * 4 - 1) * 2 - 1) * 2 - 1) with (32 * h - 23)
      by lia.
    replace ((((w * 2 - 1) * 4 - 1) * 2 - 1) * 2 - 1) with (32 * w - 23)
      by lia.
    reflexivity.
  - unfold decoder_nodes, decoder_stage. cbv zeta.
    rewrite <- !app_assoc. cbn [app].
    rewrite <- !Nat.add_assoc. cbn [Nat.add]. reflexivity.
Qed.

(** Only a backbone whose layer -36 yields a positive rank-3 shape lets the
    decoder be built. *)
Lemma efficientnet_generator_inv model m :
  efficientnet_generator model = inr m ->
  exists i tapped h w c,
    py_index (m_graph model) (-36) = inr (i, tapped)
    /\ n_output tapped = [h; w; c] /\ 0 < h /\ 0 < w /\ 0 < c.
Proof.
  unfold efficientnet_generator, keras_Model.
  destruct (py_index (m_graph model) (-36)) as [e|[i tapped]] eqn:Hi;
    [discriminate|].
  intros H. exists i, tapped.
  destruct (n_output tapped) as [|h [|w [|c [|d s]]]] eqn:Hs;
    try (cbv zeta in H; unfold bind at 1, call at 1 in H;
         simpl in H; discriminate).
  exists h, w, c. split; [reflexivity|]. split; [reflexivity|].
  cbv zeta in H. unfold bind at 1, call at 1 in H.
  cbn [map kt_shape compute_output_shape pos2 fst snd] in H.
  change (0 <? 640) with true in H. change (0 <? 2) with true in H.
  cbn [andb negb] in H.
  destruct (0 <? c) eqn:Ec; [|discriminate].
  unfold deconv_output_length in H. rewrite Z.sub_diag in H.
  change (Z.max 0 0) with 0 in H.
  destruct (0 <? h * 2 + 0) eqn:Eh; [|discriminate].
  destruct (0 <? w * 2 + 0) eqn:Ew; [|discriminate].
  apply Z.ltb_lt in Ec, Eh, Ew. lia.
Qed.

Lemma last_app_cons {A} (l1 l2 : list A) a d :
  last (l1 ++ a :: l2) d = last (a :: l2) d.
Proof.
  induction l1 as [|b l1 IH]; [reflexivity|].
  cbn [app]. rewrite <- IH. destruct (l1 ++ a :: l2) eqn:E; [|reflexivity].
  destruct l1; discriminate.
Qed.

Lemma py_index_from_end {A} (l : list A) (k : Z) i a :
  k < 0 -> py_index l k = inr (i, a) ->
  Z.of_nat i = Z.of_nat (List.length l) + k /\ nth_error l i = Some a.
Proof.
  intros Hk. unfold py_index.
  assert (E : (k <? 0) = true) by (apply Z.ltb_lt; exact Hk).
  rewrite E.
  destruct ((0 <=? k + Z.of_nat (List.length l))
            && (k + Z.of_nat (List.length l) <? Z.of_nat (List.length l)))
    eqn:B; [|discriminate].
  apply andb_prop in B as [B1 B2]. apply Z.leb_le in B1.
  destruct (nth_error l (Z.to_nat (k + Z.of_nat (List.length l))))
    as [a'|] eqn:N; [|discriminate].
  intros H. inversion H; subst. split; [lia|exact N].
Qed.

(** The output of the EfficientNet generator is 32h - 23 by 32w - 23 for a
    tapped h-by-w feature map. *)
Lemma efficientnet_generator_output_formula model m :
  efficientnet_generator model = inr m ->
  exists h w, 0 < h /\ 0 < w
              /\ output_shape m = [32 * h - 23; 32 * w - 23; 3].
Proof.
  intros H.
  destruct (efficientnet_generator_inv model m H)
    as (i & tapped & h & w & c & Hi & Hs & Hh & Hw & Hc).
  destruct (efficientnet_generator_runs model i tapped h w c Hi Hs Hh Hw Hc)
    as (m' & E & _ & _ & Hout).
  rewrite E in H. inversion H; subst m'.
  exists h, w. unfold output_shape. rewrite Hout. auto.
Qed.

(** C5.  Whatever backbone it is given, a model that
    [efficientnet_generator] returns does not have the output shape
    (256, 256, 3): each side is 32h - 23 for the side h of the tapped
    feature map, an odd number. *)
Theorem efficientnet_generator_output_not_256 model m :
  efficientnet_generator model = inr m ->
  output_shape m <> [256; 256; 3].
Proof.
  intros H.
  destruct (efficientnet_generator_output_formula model m H)
    as (h & w & _ & _ & E).
  rewrite E. intros C.
  apply (f_equal (fun l => hd 0 l)) in C. cbn [hd] in C. lia.
Qed.

Lemma efficientnet_generator_output_not_256_witness :
  exists m,
    efficientnet_generator EfficientNetB3_notop = inr m
    /\ output_shape m = [233; 233; 3]
    /\ output_shape m <> [256; 256; 3].
Proof.
  eexists. split; [vm_compute; reflexivity|].
  split; [reflexivity|].
  apply (efficientnet_generator_output_not_256 EfficientNetB3_notop).
  vm_compute. reflexivity.
Defined.

(* --------------------------------------------------------------------- *)
(** ** What the model keeps of the backbone *)

Lemma existsb_eqb_In i l : existsb (Nat.eqb i) l = true <-> In i l.
Proof.
  rewrite existsb_exists. split.
  - intros (x & Hx & E). apply Nat.eqb_eq in E. now subst.
  - intros H. exists i. split; [exact H|apply Nat.eqb_refl].
Qed.

Lemma sweep_keep n rest needed :
  In (List.length rest) needed ->
  sweep (n :: rest) needed
  = sweep rest (n_inputs n ++ needed) ++ [(List.length rest, n)].
Proof.
  intros H. cbn [sweep]. apply existsb_eqb_In in H. now rewrite H.
Qed.

Lemma sweep_drop n rest needed :
  ~ In (List.length rest) needed ->
  sweep (n :: rest) needed = sweep rest needed.
Proof.
  intros H. cbn [sweep].
  destruct (existsb (Nat.eqb (List.length rest)) needed) eqn:E;
    [|reflexivity].
  apply existsb_eqb_In in E. contradiction.
Qed.

(** Nodes nobody wants are skipped. *)
Lemma sweep_skip skipped : forall rest needed,
  (forall k, (List.length rest <= k < List.length rest
                                      + List.length skipped)%nat ->
             ~ In k needed) ->
  sweep (skipped ++ rest) needed = sweep rest needed.
Proof.
  induction skipped as [|n skipped IH]; intros rest needed H;
    [reflexivity|].
  cbn [app]. rewrite sweep_drop.
  - apply IH. intros k Hk. apply H. simpl. lia.
  - apply H. rewrite length_app. simpl. lia.
Qed.

(** Only the wanted numbers below the length of the list matter. *)
Lemma sweep_ext l : forall n1 n2,
  (forall k, (k < List.length l)%nat -> In k n1 <-> In k n2) ->
  sweep l n1 = sweep l n2.
Proof.
  induction l as [|n rest IH]; intros n1 n2 H; [reflexivity|].
  cbn [sweep].
  assert (E : existsb (Nat.eqb (List.length rest)) n1
              = existsb (Nat.eqb (List.length rest)) n2).
  { apply eq_true_iff_eq. rewrite !existsb_eqb_In. apply H. simpl. lia. }
  rewrite E.
  destruct (existsb (Nat.eqb (List.length rest)) n2).
  - f_equal. apply IH. intros k Hk. rewrite !in_app_iff.
    rewrite (H k) by (simpl; lia). reflexivity.
  - apply IH. intros k Hk. apply H. simpl. lia.
Qed.

(** A kept node carries its own number, which is below the length. *)
Lemma sweep_In l : forall needed i n,
  In (i, n) (sweep l needed) ->
  (i < List.length l)%nat /\ nth_error (rev l) i = Some n.
Proof.
  induction l as [|m rest IH]; intros needed i n H; [contradiction|].
  cbn [sweep] in H. cbn [rev List.length].
  destruct (existsb (Nat.eqb (List.length rest)) needed).
  - apply in_app_or in H as [H|[H|[]]].
    + destruct (IH _ _ _ H) as [Hlt Hn]. split; [lia|].
      rewrite nth_error_app1 by (rewrite length_rev; exact Hlt). exact Hn.
    + inversion H; subst. split; [lia|].
      rewrite nth_error_app2 by (rewrite length_rev; lia).
      now rewrite length_rev, Nat.sub_diag.
  - destruct (IH _ _ _ H) as [Hlt Hn]. split; [lia|].
    rewrite nth_error_app1 by (rewrite length_rev; exact Hlt). exact Hn.
Qed.

Lemma length_sweep l : forall needed,
  (List.length (sweep l needed) <= List.length l)%nat.
Proof.
  induction l as [|m rest IH]; intros needed; [simpl; lia|].
  cbn [sweep].
  destruct (existsb (Nat.eqb (List.length rest)) needed).
  - rewrite length_app. specialize (IH (n_inputs m ++ needed)).
    simpl. lia.
  - specialize (IH needed). simpl. lia.
Qed.

Lemma position_app kept1 kept2 j :
  position (kept1 ++ kept2) j = (position kept1 j + position kept2 j)%nat.
Proof. unfold position. now rewrite filter_app, length_app. Qed.

Lemma position_all kept j :
  (forall p, In p kept -> (fst p < j)%nat) ->
  position kept j = List.length kept.
Proof.
  unfold position. induction kept as [|p kept IH]; intros H; [reflexivity|].
  cbn [filter].
  assert (E : (fst p <? j)%nat = true)
    by (apply Nat.ltb_lt, H; left; reflexivity).
  rewrite E. cbn [List.length]. f_equal. apply IH.
  intros q Hq. apply H. right. exact Hq.
Qed.

Lemma position_none kept j :
  (forall p, In p kept -> (j <= fst p)%nat) ->
  position kept j = 0%nat.
Proof.
  unfold position. induction kept as [|p kept IH]; intros H; [reflexivity|].
  cbn [filter].
  assert (E : (fst p <? j)%nat = false)
    by (apply Nat.ltb_ge, H; left; reflexivity).
  rewrite E. apply IH. intros q Hq. apply H. right. exact Hq.
Qed.

(** Among [l] numbered from [s], those numbered below [j]. *)
Lemma position_numbered (l : list node) : forall s j,
  position (combine (seq s (List.length l)) l) j
  = Nat.min (List.length l) (j - s).
Proof.
  unfold position.
  induction l as [|n l IH]; intros s j; [reflexivity|].
  cbn [List.length seq combine filter fst].
  destruct (Nat.ltb_spec s j) as [H|H].
  - cbn [List.length]. rewrite IH. lia.
  - rewrite IH. lia.
Qed.

Lemma topological_from_spec g : forall k,
  topological_from k g = true ->
  forall i n, nth_error g i = Some n ->
              Forall (fun j => (j < k + i)%nat) (n_inputs n).
Proof.
  induction g as [|m g IH]; intros k H i n Hn; [destruct i; discriminate|].
  cbn [topological_from] in H. apply andb_prop in H as [H1 H2].
  destruct i as [|i].
  - inversion Hn; subst. rewrite forallb_forall in H1.
    apply Forall_forall. intros j Hj. apply H1, Nat.ltb_lt in Hj. lia.
  - cbn [nth_error] in Hn. specialize (IH (S k) H2 i n Hn).
    eapply Forall_impl; [|exact IH]. intros j Hj. simpl in Hj. lia.
Qed.

Lemma firstn_S_nth {A} (l : list A) i a :
  nth_error l i = Some a -> firstn (S i) l = firstn i l ++ [a].
Proof.
  revert l. induction i as [|i IH]; intros [|b l] H; try discriminate.
  - inversion H. reflexivity.
  - cbn [nth_error] in H. rewrite firstn_cons, (IH l H). reflexivity.
Qed.

(** Walking back from the decoder's last node: all twelve decoder nodes are
    kept, the 35 backbone nodes after the tapped one are not, and below the
    tapped node the walk is the one that starts from it. *)
Lemma ancestors_with_decoder B i tapped h w :
  nth_error B i = Some tapped -> (i + 36 = List.length B)%nat ->
  ancestors (B ++ decoder_nodes i (List.length B) h w)
            [(List.length B + 11)%nat]
  = ancestors (firstn (S i) B) [i]
    ++ combine (seq (List.length B) 12)
               (decoder_nodes i (List.length B) h w).
Proof.
  intros Hn Hlen. unfold ancestors. rewrite rev_app_distr.
  unfold decoder_nodes, decoder_stage. cbv zeta. cbn [app rev].
  do 12 (rewrite sweep_keep
          by (cbn [List.length n_inputs app In]; rewrite ?length_rev; lia)).
  cbn [List.length n_inputs app]. rewrite !length_rev.
  rewrite <- !app_assoc. cbn [app seq combine].
  f_equal.
  replace (rev B) with (rev (skipn (S i) B) ++ rev (firstn (S i) B))
    by (rewrite <- rev_app_distr, firstn_skipn; reflexivity).
  rewrite sweep_skip.
  - apply sweep_ext. intros k Hk.
    rewrite length_rev, length_firstn in Hk.
    cbn [In]. lia.
  - intros k Hk.
    rewrite !length_rev, length_firstn, length_skipn in Hk.
    cbn [In]. lia.
Qed.

(** The graph of the returned model: what the tapped layer depends on,
    renumbered, followed by the decoder. *)
Lemma pruned_with_decoder B i tapped h w :
  nth_error B i = Some tapped -> (i + 36 = List.length B)%nat ->
  topological B = true ->
  let kept :=
    ancestors (B ++ decoder_nodes i (List.length B) h w)
              [(List.length B + 11)%nat] in
  let backbone := prune_graph (firstn (S i) B) [i] in
  map (renumber kept) kept
  = backbone
    ++ decoder_nodes (List.length backbone - 1) (List.length backbone) h w
  /\ (1 <= List.length backbone <= S i)%nat
  /\ nth_error backbone (List.length backbone - 1)
     = Some (renumber (ancestors (firstn (S i) B) [i]) (i, tapped))
  /\ position kept (List.length B + 11) = (List.length backbone + 11)%nat.
Proof.
  intros Hn Hlen Htop. cbv zeta.
  rewrite (ancestors_with_decoder B i tapped h w Hn Hlen).
  unfold prune_graph. rewrite length_map.
  set (A := ancestors (firstn (S i) B) [i]).
  set (D := decoder_nodes i (List.length B) h w).
  assert (LD : List.length D = 12%nat) by reflexivity.
  assert (FA : forall p, In p A -> (fst p < S i)%nat
                                   /\ nth_error B (fst p) = Some (snd p)).
  { intros [j n] Hp. unfold A, ancestors in Hp.
    apply sweep_In in Hp as [Hlt Hnth].
    rewrite length_rev, length_firstn in Hlt.
    rewrite rev_involutive, nth_error_firstn in Hnth.
    cbn [fst snd].
    destruct (Nat.ltb_spec j (S i)); [|discriminate]. split; [lia|exact Hnth]. }
  assert (EA : exists A', A = A' ++ [(i, tapped)]
                          /\ forall p, In p A' -> (fst p < i)%nat).
  { unfold A, ancestors. rewrite (firstn_S_nth B i tapped Hn), rev_app_distr.
    cbn [rev app].
    assert (Li : List.length (rev (firstn i B)) = i)
      by (rewrite length_rev, length_firstn; lia).
    rewrite sweep_keep by (rewrite Li; left; reflexivity).
    rewrite Li. eexists. split; [reflexivity|].
    intros [j n] Hp. apply sweep_In in Hp as [Hlt _].
    rewrite Li in Hlt. exact Hlt. }
  destruct EA as (A' & EA & FA').
  assert (LA : List.length A = S (List.length A'))
    by (rewrite EA, length_app; simpl; lia).
  assert (LAi : (List.length A <= S i)%nat).
  { unfold A, ancestors.
    pose proof (length_sweep (rev (firstn (S i) B)) [i]) as L.
    rewrite length_rev, length_firstn in L. lia. }
  assert (Pbb : forall j, (j <= List.length B)%nat ->
                          position (A ++ combine (seq (List.length B) 12) D) j
                          = position A j).
  { intros j Hj. rewrite position_app.
    rewrite <- LD at 1. rewrite position_numbered. lia. }
  assert (Pdec : forall j, (List.length B <= j <= List.length B + 12)%nat ->
                   position (A ++ combine (seq (List.length B) 12) D) j
                   = (List.length A + (j - List.length B))%nat).
  { intros j Hj. rewrite position_app.
    rewrite position_all by (intros p Hp; destruct (FA p Hp); lia).
    f_equal. rewrite <- LD at 1. rewrite position_numbered. lia. }
  assert (Ptap : position (A ++ combine (seq (List.length B) 12) D) i
                 = (List.length A - 1)%nat).
  { rewrite Pbb by lia. rewrite EA, position_app.
    rewrite position_all by exact FA'.
    rewrite position_none; [rewrite length_app; simpl; lia|].
    intros p [<-|[]]. simpl. lia. }
  set (kept := A ++ combine (seq (List.length B) 12) D) in *.
  split; [|split; [lia|split]].
  - unfold kept at 2. rewrite map_app. f_equal.
    + apply map_ext_in. intros [j n] Hp. unfold renumber. cbn [snd].
      f_equal. apply map_ext_in. intros a Ha.
      destruct (FA _ Hp) as [Hj Hnth]. cbn [fst snd] in Hj, Hnth.
      pose proof (topological_from_spec B 0 Htop j n Hnth) as T.
      rewrite Forall_forall in T. specialize (T a Ha). simpl in T.
      apply Pbb. lia.
    + unfold D, decoder_nodes, decoder_stage. cbv zeta.
      cbn [app seq combine map]. unfold renumber.
      cbn [map snd n_layer n_inputs n_output].
      rewrite Ptap. rewrite !Pdec by lia.
      repeat (f_equal; try lia).
  - replace (List.length A - 1)%nat with (List.length A') by lia.
    assert (NA : nth_error A (List.length A') = Some (i, tapped)).
    { rewrite EA, nth_error_app2, Nat.sub_diag by lia. reflexivity. }
    rewrite nth_error_map, NA. reflexivity.
  - rewrite Pdec by lia. lia.
Qed.

(** C8.  Given a backbone, built in topological order, whose layer -36
    yields a positive h-by-w-by-c map, [efficientnet_generator] returns a
    model truncated at that layer: of the backbone it keeps what the tapped
    layer depends on, ending with the tapped layer itself, and none of the
    35 layers after it.  To these it appends exactly four stages of
    transposed convolution, max-pooling and instance normalisation, the
    first reading the tapped layer.  The filter counts are 640, 160, 40, 3,
    the output has 3 channels, the last layer is an instance normalisation,
    and no appended layer is or carries an activation: the output is not
    passed through tanh. *)
Theorem efficientnet_generator_decoder model i tapped h w c :
  py_index (m_graph model) (-36) = inr (i, tapped) ->
  n_output tapped = [h; w; c] -> 0 < h -> 0 < w -> 0 < c ->
  topological (m_graph model) = true ->
  exists m,
    efficientnet_generator model = inr m
    /\ (i + 36 = List.length (m_graph model))%nat
    /\ nth_error (m_graph model) i = Some tapped
    /\ input_shapes m = input_shapes model
    /\ (let backbone := prune_graph (firstn (S i) (m_graph model)) [i] in
        m_graph m
        = backbone
          ++ decoder_nodes (List.length backbone - 1) (List.length backbone)
                           h w
        /\ (1 <= List.length backbone <= S i)%nat
        /\ option_map n_layer
             (nth_error backbone (List.length backbone - 1))
           = Some (n_layer tapped)
        /\ m_outputs m
           = mkTensor (List.length backbone + 11)
                      [32 * h - 23; 32 * w - 23; 3])
    /\ (List.length (m_graph m) + 35 <= List.length (m_graph model) + 12)%nat
    /\ (forall tap len, map n_layer (decoder_nodes tap len h w)
                        = decoder_layers)
    /\ transposed_filters decoder_layers = [640; 160; 40; 3]
    /\ last (layers_of m) Add = InstanceNormalization
    /\ Forall (fun l => is_activation_layer l = false
                        /\ final_activation l = None) decoder_layers
    /\ output_shape m = [32 * h - 23; 32 * w - 23; 3].
Proof.
  intros Hi Hs Hh Hw Hc Htop.
  destruct (efficientnet_generator_runs model i tapped h w c Hi Hs Hh Hw Hc)
    as (m & E & Hin & Hg & Hout).
  cbv zeta in Hin, Hg, Hout.
  destruct (py_index_from_end (m_graph model) (-36) i tapped ltac:(lia) Hi)
    as [Hlen Hnth].
  assert (Hlen' : (i + 36 = List.length (m_graph model))%nat) by lia.
  destruct (pruned_with_decoder (m_graph model) i tapped h w
              Hnth Hlen' Htop) as (Pg & Pl & Pt & Po).
  cbv zeta in Pg, Pl, Pt, Po.
  rewrite Pg in Hg. unfold retarget in Hout. cbn [kt_node kt_shape] in Hout.
  rewrite Po in Hout.
  exists m. split; [exact E|]. split; [exact Hlen'|]. split; [exact Hnth|].
  split.
  { unfold input_shapes. rewrite Hin, map_map. reflexivity. }
  split.
  { cbv zeta. split; [exact Hg|]. split; [exact Pl|].
    split; [rewrite Pt; reflexivity|exact Hout]. }
  split.
  { rewrite Hg, length_app.
    change (List.length
              (decoder_nodes
                 (List.length
                    (prune_graph (firstn (S i) (m_graph model)) [i]) - 1)
                 (List.length
                    (prune_graph (firstn (S i) (m_graph model)) [i]))
                 h w)) with 12%nat.
    lia. }
  split; [reflexivity|]. split; [reflexivity|]. split.
  - unfold layers_of. rewrite Hg, map_app.
    change (map n_layer
              (decoder_nodes
                 (List.length
                    (prune_graph (firstn (S i) (m_graph model)) [i]) - 1)
                 (List.length
                    (prune_graph (firstn (S i) (m_graph model)) [i]))
                 h w))
      with decoder_layers.
    unfold decoder_layers. rewrite last_app_cons. reflexivity.
  - split.
    + repeat constructor.
    + unfold output_shape. rewrite Hout. reflexivity.
Qed.

Lemma efficientnet_generator_decoder_witness :
  exists m,
    efficientnet_generator EfficientNetB3_notop = inr m
    /\ List.length (m_graph EfficientNetB3_notop) = 37%nat
    /\ List.length (m_graph m) = 14%nat
    /\ last (layers_of m) Add = InstanceNormalization
    /\ output_shape m = [233; 233; 3].
Proof.
  destruct (efficientnet_generator_decoder EfficientNetB3_notop 1%nat
              (mkNode (External "block6f_se_excite") [0%nat] [8; 8; 1392])
              8 8 1392)
    as (m & E & _ & _ & _ & (Hg & _) & _ & _ & _ & HL & _ & Hout);
    [reflexivity | reflexivity | lia | lia | lia | reflexivity |].
  exists m. split; [exact E|]. split; [reflexivity|].
  split; [rewrite Hg; reflexivity|]. split; [exact HL|exact Hout].
Defined.

(* ===================================================================== *)
(** * Construction with default arguments *)
(* ===================================================================== *)

(** C2.  With its default arguments [get_resnet_generator] returns a model
    from (256, 256, 3) to (256, 256, 3).  [get_discriminator] with its
    defaults raises: the default [name=None] meets [name + "_img_input"].
    [efficientnet_generator], on the EfficientNetB3 backbone, returns a
    model whose output shape is (233, 233, 3). *)
Theorem default_construction :
  (exists m,
      get_resnet_generator default_filters default_num_downsampling_blocks
        default_num_residual_blocks default_num_upsample_blocks default_name
      = inr m
      /\ input_shapes m = [[256; 256; 3]]
      /\ output_shape m = [256; 256; 3])
  /\ get_discriminator default_filters default_num_downsampling default_name
     = inl (TypeError
              "unsupported operand type(s) for +: 'NoneType' and 'str'")
  /\ (exists m,
        efficientnet_generator EfficientNetB3_notop = inr m
        /\ input_shapes m = [[256; 256; 3]]
        /\ output_shape m = [233; 233; 3]).
Proof.
  split; [|split].
  - eexists. split; [vm_compute; reflexivity|]. split; reflexivity.
  - reflexivity.
  - eexists. split; [vm_compute; reflexivity|]. split; reflexivity.
Qed.

(* ===================================================================== *)
(** * The forward pass of the generator *)
(* ===================================================================== *)

Lemma has_shape4b_complete {A} (t : tensor4 A) b h w c :
  has_shape4 t b h w c -> has_shape4b t b h w c = true.
Proof.
  intros [Hb Ht]. unfold has_shape4b.
  apply andb_true_intro. split; [apply Nat.eqb_eq, Hb|].
  apply forallb_forall. intros img Hi.
  rewrite Forall_forall in Ht. destruct (Ht img Hi) as [Hh Hr].
  apply andb_true_intro. split; [apply Nat.eqb_eq, Hh|].
  apply forallb_forall. intros row Hrow.
  rewrite Forall_forall in Hr. destruct (Hr row Hrow) as [Hw Hp].
  apply andb_true_intro. split; [apply Nat.eqb_eq, Hw|].
  apply forallb_forall. intros px Hpx.
  rewrite Forall_forall in Hp. apply Nat.eqb_eq, Hp, Hpx.
Qed.

Lemma fits_of_shape b t s : tensor_of_shape b t s -> fits t s = true.
Proof.
  destruct s as [|h [|w [|c [|d s]]]]; simpl; try tauto.
  intros (Hh & Hw & Hc & Hs).
  apply Z.ltb_lt in Hh, Hw, Hc. rewrite Hh, Hw, Hc. simpl.
  apply has_shape4b_complete.
  destruct Hs as [Hb Ht]. split; [reflexivity|exact Ht].
Qed.

Lemma has_shape4_tmap4 {A B} (f : A -> B) (t : tensor4 A) b h w c :
  has_shape4 t b h w c -> has_shape4 (tmap4 f t) b h w c.
Proof.
  intros [Hb Ht]. unfold has_shape4, tmap4.
  split; [now rewrite length_map|].
  apply Forall_map. rewrite Forall_forall in *. intros img Hi.
  destruct (Ht img Hi) as [Hh Hr].
  split; [now rewrite length_map|].
  apply Forall_map. rewrite Forall_forall in *. intros row Hrow.
  destruct (Hr row Hrow) as [Hw Hp].
  split; [now rewrite length_map|].
  apply Forall_map. rewrite Forall_forall in *. intros px Hpx.
  rewrite length_map. apply Hp, Hpx.
Qed.

Lemma shape_eqb_eq s1 : forall s2, shape_eqb s1 s2 = true -> s1 = s2.
Proof.
  induction s1 as [|a s1 IH]; intros [|b s2]; simpl; try discriminate.
  - reflexivity.
  - intros H. apply andb_prop in H as [H1 H2].
    apply Z.eqb_eq in H1. rewrite H1, (IH _ H2). reflexivity.
Qed.

Lemma positive3_inv s :
  positive3 s = true -> exists h w c, s = [h; w; c] /\ 0 < h /\ 0 < w /\ 0 < c.
Proof.
  destruct s as [|h [|w [|c [|d s]]]]; simpl; try discriminate.
  intros H. apply andb_prop in H as [H Hc]. apply andb_prop in H as [Hh Hw].
  apply Z.ltb_lt in Hh, Hw, Hc. eauto 7.
Qed.

Lemma Forall2_nth_error_some {X Y} (P : X -> Y -> Prop) xs ys :
  Forall2 P xs ys ->
  forall i y, nth_error ys i = Some y ->
              exists x, nth_error xs i = Some x /\ P x y.
Proof.
  induction 1 as [|x y xs ys Hxy _ IH]; intros [|i] y' E; simpl in *;
    try discriminate.
  - inversion E; subst. eauto.
  - apply IH, E.
Qed.

(** The values of a node's inputs exist whenever their shapes do. *)
Lemma all_some_Forall2 {X Y} (P : X -> Y -> Prop) xs ys :
  Forall2 P xs ys ->
  forall idx ins,
    all_some (map (nth_error ys) idx) = Some ins ->
    exists ts, all_some (map (nth_error xs) idx) = Some ts
               /\ Forall2 P ts ins.
Proof.
  intros HF. induction idx as [|i idx IH]; intros ins E; simpl in *.
  - inversion E; subst. exists []. split; [reflexivity|constructor].
  - destruct (nth_error ys i) as [y|] eqn:Ey; [|discriminate].
    destruct (all_some (map (nth_error ys) idx)) as [ins'|] eqn:Ei;
      [|discriminate].
    inversion E; subst. clear E.
    destruct (Forall2_nth_error_some P xs ys HF i y Ey) as (x & Ex & Pxy).
    destruct (IH ins' eq_refl) as (ts & Et & Pts).
    exists (x :: ts). rewrite Ex, Et. split; [reflexivity|].
    constructor; assumption.
Qed.

Lemma value_ok_shapes b vals done :
  Forall2 (value_ok b) vals done ->
  Forall2 (tensor_of_shape b) vals (map n_output done).
Proof.
  induction 1 as [|v n vals done [Hs _] _ IH]; simpl; constructor;
    assumption.
Qed.

(** One step of the forward pass: a node that passes [node_check] has a
    value, of the node's shape. *)
Lemma node_value_ok layer_fn b x in_shape vals done n :
  respects_shapes layer_fn -> (1 <= b)%nat ->
  tensor_of_shape b x in_shape ->
  Forall2 (value_ok b) vals done ->
  node_check in_shape (map n_output done) n = true ->
  exists v, node_value layer_fn x vals n = Some v /\ value_ok b v n.
Proof.
  intros Hf Hb Hx Hvals Hn.
  unfold node_check in Hn. apply andb_prop in Hn as [Hpos Hn].
  destruct (all_some (map (nth_error (map n_output done)) (n_inputs n)))
    as [ins|] eqn:Eins; [|discriminate].
  apply andb_prop in Hn as [Hshape Hlayer].
  destruct (compute_output_shape (n_layer n) ins) as [e|s] eqn:Ec;
    [discriminate|].
  apply shape_eqb_eq in Hshape. subst s.
  destruct (all_some_Forall2 _ _ _ (value_ok_shapes _ _ _ Hvals) _ _ Eins)
    as (ts & Ets & Hts).
  unfold node_value. rewrite Ets.
  assert (Framework :
            framework_layer (n_layer n) = true ->
            exists v, layer_fn (n_layer n) ts = Some v /\ value_ok b v n).
  { intros Hl.
    destruct (Hf (n_layer n) b ts ins (n_output n) Hl Hb Hts Ec Hpos)
      as (v & Ev & Sv).
    exists v. split; [exact Ev|]. split; [exact Sv|].
    intros a Ha. rewrite Ha in Hl. discriminate. }
  destruct (n_layer n) as [s name|[pw ph]|f ks st p ub act|f ks st p ub act
                           |ps st| |a| |name] eqn:El;
    try (apply Framework; reflexivity).
  - (* InputLayer *)
    destruct ins as [|i0 ins]; [|destruct s as [|? [|? [|? [|? ?]]]];
                                 discriminate].
    inversion Hts; subst ts. simpl in Ec. inversion Ec as [Es].
    apply shape_eqb_eq in Hlayer. subst in_shape.
    cbv beta iota. rewrite <- Es, (fits_of_shape b x s Hx).
    exists x. split; [reflexivity|]. split.
    + rewrite <- Es. exact Hx.
    + intros a Ha. congruence.
  - (* ReflectionPadding2D *)
    destruct ins as [|[|h [|w [|c [|d s]]]] [|i1 ins]]; try discriminate.
    inversion Hts as [|t s0 ts' ins' Ht Hnil]; subst.
    inversion Hnil; subst. clear Hts Hnil.
    cbn [compute_output_shape] in Ec.
    destruct ((pw <? 0) || (ph <? 0)) eqn:Eneg; [discriminate|].
    apply orb_false_elim in Eneg as [Epw Eph].
    apply Z.ltb_ge in Epw, Eph.
    apply andb_prop in Hlayer as [Hph Hpw]. apply Z.ltb_lt in Hph, Hpw.
    assert (Es : [h + 2 * ph; w + 2 * pw; c] = n_output n) by congruence.
    clear Ec.
    destruct Ht as (Hh & Hw & Hc & Hs).
    rewrite <- (Z2Nat.id pw Epw), <- (Z2Nat.id ph Eph).
    rewrite (ReflectionPadding2D_call_ok t b _ _ _ _ _ Hs) by lia.
    exists (reflect_pad4 (Z.to_nat ph) (Z.to_nat pw) t).
    split; [reflexivity|]. split.
    + rewrite <- Es. cbn [tensor_of_shape].
      split; [lia|]. split; [lia|]. split; [lia|].
      replace (Z.to_nat (h + 2 * ph))
        with (Z.to_nat h + 2 * Z.to_nat ph)%nat by lia.
      replace (Z.to_nat (w + 2 * pw))
        with (Z.to_nat w + 2 * Z.to_nat pw)%nat by lia.
      apply has_shape4_reflect_pad4; [exact Hs|lia|lia].
    + intros a Ha. congruence.
  - (* Act *)
    destruct ins as [|s [|i1 ins]]; try discriminate.
    inversion Hts as [|t s0 ts' ins' Ht Hnil]; subst.
    inversion Hnil; subst. clear Hts Hnil.
    simpl in Ec. inversion Ec as [Es]. clear Ec.
    unfold known_activation in Hlayer. unfold Act_call.
    destruct (activation_fn a) as [fn|] eqn:Ea; [|discriminate].
    exists (tmap4 fn t). split; [reflexivity|]. split.
    + rewrite <- Es.
      destruct s as [|h [|w [|c [|d s]]]]; simpl in Ht |- *; try tauto.
      destruct Ht as (Hh & Hw & Hc & Hs).
      repeat (split; [assumption|]). apply has_shape4_tmap4, Hs.
    + intros a' Ha'. rewrite El in Ha'. inversion Ha'; subst a'.
      exists fn, t. split; [exact Ea|reflexivity].
  - discriminate.
Qed.

(** The forward pass over a checked graph gives every node a value of its
    static shape. *)
Lemma eval_nodes_ok layer_fn b x in_shape :
  respects_shapes layer_fn -> (1 <= b)%nat ->
  tensor_of_shape b x in_shape ->
  forall g done vals,
    Forall2 (value_ok b) vals done ->
    check_nodes in_shape (map n_output done) g = true ->
    exists vals',
      eval_nodes layer_fn x vals g = Some vals'
      /\ Forall2 (value_ok b) vals' (done ++ g).
Proof.
  intros Hf Hb Hx. induction g as [|n g IH]; intros done vals Hvals Hg.
  - exists vals. rewrite app_nil_r. split; [reflexivity|exact Hvals].
  - simpl in Hg. apply andb_prop in Hg as [Hn Hg].
    destruct (node_value_ok layer_fn b x in_shape vals done n
                Hf Hb Hx Hvals Hn) as (v & Ev & Hv).
    destruct (IH (done ++ [n]) (vals ++ [v])) as (vals' & E & H').
    + apply Forall2_app; [exact Hvals|]. constructor; [exact Hv|constructor].
    + rewrite map_app. exact Hg.
    + exists vals'. simpl. rewrite Ev. split; [exact E|].
      rewrite <- app_assoc in H'. exact H'.
Qed.

(** A model whose graph passes the check, fed a batch of its input shape,
    returns a value for its output node. *)
Lemma predict_ok layer_fn m b x in_shape n :
  respects_shapes layer_fn -> (1 <= b)%nat ->
  tensor_of_shape b x in_shape ->
  check_nodes in_shape [] (m_graph m) = true ->
  nth_error (m_graph m) (kt_node (m_outputs m)) = Some n ->
  exists y, predict layer_fn m x = Some y /\ value_ok b y n.
Proof.
  intros Hf Hb Hx Hg Hn.
  destruct (eval_nodes_ok layer_fn b x in_shape Hf Hb Hx (m_graph m) [] []
              (Forall2_nil _) Hg) as (vals & E & Hvals).
  simpl in Hvals.
  destruct (Forall2_nth_error_some _ _ _ Hvals _ _ Hn) as (y & Ey & Hy).
  exists y. unfold predict. rewrite E. split; [exact Ey|exact Hy].
Qed.

Lemma has_shape4_zeros4 b h w c : has_shape4 (zeros4 b h w c) b h w c.
Proof.
  unfold has_shape4, zeros4. split; [apply repeat_length|].
  apply Forall_forall. intros img Hi. apply repeat_spec in Hi. subst img.
  split; [apply repeat_length|].
  apply Forall_forall. intros row Hr. apply repeat_spec in Hr. subst row.
  split; [apply repeat_length|].
  apply Forall_forall. intros px Hp. apply repeat_spec in Hp. subst px.
  apply repeat_length.
Qed.

Lemma measure_of_shape b t s :
  (1 <= b)%nat -> tensor_of_shape b t s -> measure t = s.
Proof.
  intros Hb. destruct s as [|h [|w [|c [|d s]]]]; simpl; try tauto.
  intros (Hh & Hw & Hc & Hlen & Ht). unfold measure.
  destruct t as [|img t]; [simpl in Hlen; lia|].
  inversion Ht as [|? ? [Hi Himg] _]; subst. simpl hd.
  destruct img as [|row img]; [simpl in Hi; lia|].
  inversion Himg as [|? ? [Hr Hrow] _]; subst. simpl hd.
  destruct row as [|px row]; [simpl in Hr; lia|].
  inversion Hrow as [|? ? Hpx _]; subst. simpl hd.
  rewrite Hi, Hr, Hpx. f_equal; [lia|]. f_equal; [lia|]. f_equal. lia.
Qed.

(** The contract on the framework layers can be met. *)
Lemma constant_layers_respects_shapes : respects_shapes constant_layers.
Proof.
  intros l b ts ins s Hl Hb Hts Hc Hpos.
  assert (Hm : map measure ts = ins).
  { clear -Hb Hts. induction Hts as [|t s ts ins Ht _ IH]; simpl;
      [reflexivity|].
    rewrite IH, (measure_of_shape b t s Hb Ht). reflexivity. }
  unfold constant_layers. rewrite Hm, Hc.
  destruct (positive3_inv s Hpos) as (h & w & c & -> & Hh & Hw & Hc').
  eexists. split; [reflexivity|].
  assert (Hlen : List.length (hd [] ts) = b).
  { destruct Hts as [|t s ts ins Ht _].
    - destruct l; simpl in Hc; discriminate.
    - simpl. destruct s as [|? [|? [|? [|? ?]]]]; simpl in Ht; try tauto.
      destruct Ht as (_ & _ & _ & Hlen & _). exact Hlen. }
  rewrite Hlen. simpl. repeat (split; [assumption|]).
  apply has_shape4_zeros4.
Qed.

(** C7.  Whenever the filter counts stay positive, [get_resnet_generator]
    builds exactly the sequence input (256x256x3), reflect-pad (3,3), 7x7
    convolution, instance norm, ReLU, N downsampling blocks (the i-th with
    [filters * 2^i] channels), M residual blocks (all at [filters * 2^N]
    channels), K upsampling blocks (the j-th with [filters * 2^N // 2^j]
    channels), reflect-pad (3,3), 7x7 convolution to 3 channels, tanh.
    With the defaults (64, 2, 5, 2) the nodes form one chain with a skip
    into every [Add], the static output shape is (256, 256, 3) and the last
    layer is the tanh activation.  Run on any batch of b >= 1 images of
    256x256x3, with framework layers that return tensors of the shapes
    Keras infers for them (whatever their weights), the default model
    returns a batch of b tensors of 256x256x3 whose every component lies
    in [-1, 1]. *)
Theorem get_resnet_generator_layer_sequence :
  (forall filters N M K name,
      0 < filters ->
      0 < filters * 2 ^ Z.max 0 N / 2 ^ Z.max 0 K ->
      exists m,
        get_resnet_generator filters N M K name = inr m
        /\ layers_of m = resnet_generator_layers filters N M K)
  /\ (exists m,
        get_resnet_generator default_filters default_num_downsampling_blocks
          default_num_residual_blocks default_num_upsample_blocks
          default_name = inr m
        /\ layers_of m = resnet_generator_layers 64 2 5 2
        /\ chained_from 0 (m_graph m) = true
        /\ input_shapes m = [[256; 256; 3]]
        /\ output_shape m = [256; 256; 3]
        /\ last (layers_of m) Add = Act (Activation "tanh")
        /\ forall layer_fn (b : nat) (x : tensor4 R),
             respects_shapes layer_fn -> (1 <= b)%nat ->
             has_shape4 x b 256 256 3 ->
             exists y,
               predict layer_fn m x = Some y
               /\ has_shape4 y b 256 256 3
               /\ Forall4 (fun v => (-1 <= v <= 1)%R) y).
Proof.
  split.
  - intros filters N M K name Hf Hup.
    destruct (resnet_generator_runs filters N M K name Hf)
      as (m & E & _ & _ & HL & _).
    { replace (Z.of_nat (Z.to_nat N)) with (Z.max 0 N) by lia.
      replace (Z.of_nat (Z.to_nat K)) with (Z.max 0 K) by lia.
      exact Hup. }
    exists m. split; [exact E|].
    rewrite HL. apply stage_layers_closed.
  - eexists. split; [vm_compute; reflexivity|].
    split; [vm_compute; reflexivity|].
    split; [vm_compute; reflexivity|].
    split; [reflexivity|]. split; [reflexivity|].
    split; [vm_compute; reflexivity|].
    intros layer_fn b x Hf Hb Hx.
    match goal with
    | |- exists y, predict _ ?M _ = Some y /\ _ =>
        edestruct (predict_ok layer_fn M b x [256; 256; 3])
          as (y & Ey & Hy & Hact);
        [exact Hf | exact Hb | | | | ]
    end.
    + simpl. repeat (split; [lia|]). exact Hx.
    + vm_compute. reflexivity.
    + vm_compute. reflexivity.
    + exists y. split; [exact Ey|]. split.
      * simpl in Hy. destruct Hy as (_ & _ & _ & Hy). exact Hy.
      * destruct (Hact (Activation "tanh") eq_refl) as (fn & t & Efn & ->).
        simpl in Efn. inversion Efn; subst fn.
        apply Forall4_tmap4. apply tanh_bounded.
Qed.

Lemma get_resnet_generator_layer_sequence_witness :
  (exists m,
     get_resnet_generator 64 2 5 2 None = inr m
     /\ layers_of m = resnet_generator_layers 64 2 5 2)
  /\ (exists m y,
        get_resnet_generator 64 2 5 2 None = inr m
        /\ predict constant_layers m (zeros4 1 256 256 3) = Some y
        /\ has_shape4 y 1 256 256 3
        /\ Forall4 (fun v => (-1 <= v <= 1)%R) y).
Proof.
  split.
  - apply (proj1 get_resnet_generator_layer_sequence 64 2 5 2 None).
    + lia.
    + vm_compute. reflexivity.
  - destruct (proj2 get_resnet_generator_layer_sequence)
      as (m & E & _ & _ & _ & _ & _ & HP).
    destruct (HP constant_layers 1%nat (zeros4 1 256 256 3)
                 constant_layers_respects_shapes (le_n 1)
                 (has_shape4_zeros4 1 256 256 3))
      as (y & Ey & Hs & Hbound).
    exists m, y. split; [exact E|]. split; [exact Ey|].
    split; [exact Hs|exact Hbound].
Defined.

(* ===================================================================== *)
(** * Models all of whose layers lead to the output *)
(* ===================================================================== *)

Lemma reads_previous_from_app g1 : forall i g2,
  reads_previous_from i (g1 ++ g2)
  = reads_previous_from i g1
    && reads_previous_from (i + List.length g1) g2.
Proof.
  induction g1 as [|n g1 IH]; intros i g2; simpl.
  - now rewrite Nat.add_0_r.
  - rewrite IH, <- andb_assoc. do 3 f_equal. lia.
Qed.

Lemma combine_seq_snoc {A} (l : list A) a s :
  combine (seq s (S (List.length l))) (l ++ [a])
  = combine (seq s (List.length l)) l ++ [((s + List.length l)%nat, a)].
Proof.
  revert s. induction l as [|x l IH]; intros s.
  - simpl. now rewrite Nat.add_0_r.
  - change (combine (seq s (S (List.length (x :: l)))) ((x :: l) ++ [a]))
      with ((s, x) :: combine (seq (S s) (S (List.length l))) (l ++ [a])).
    rewrite IH. cbn [List.length seq combine app].
    replace (S s + List.length l)%nat with (s + S (List.length l))%nat
      by lia.
    reflexivity.
Qed.

(** In a chain the backward sweep from the last node keeps every node. *)
Lemma sweep_chain l : forall needed,
  reads_previous_from 0 (rev l) = true ->
  l <> [] -> In (List.length l - 1)%nat needed ->
  sweep l needed = combine (seq 0 (List.length l)) (rev l).
Proof.
  induction l as [|n rest IH]; intros needed Hc Hne Hin; [congruence|].
  replace (List.length (n :: rest) - 1)%nat with (List.length rest) in Hin
    by (cbn [List.length]; lia).
  rewrite sweep_keep by exact Hin.
  cbn [rev List.length].
  pose proof (combine_seq_snoc (rev rest) n 0) as Hs.
  rewrite length_rev in Hs. rewrite Hs. clear Hs. cbn [Nat.add].
  cbn [rev] in Hc. rewrite reads_previous_from_app in Hc.
  apply andb_prop in Hc as [Hrest Hn].
  destruct rest as [|n' rest']; [reflexivity|].
  f_equal. apply IH; [exact Hrest|discriminate|].
  cbn [reads_previous_from] in Hn. rewrite andb_true_r in Hn.
  rewrite length_rev in Hn. cbn [Nat.add List.length] in Hn |- *.
  cbn [Nat.eqb orb] in Hn.
  apply in_or_app. left. apply existsb_eqb_In. exact Hn.
Qed.

Lemma map_snd_numbered {A} (l : list A) : forall s,
  map snd (combine (seq s (List.length l)) l) = l.
Proof.
  induction l as [|x l IH]; intros s; simpl; [reflexivity|].
  now rewrite IH.
Qed.

(** Pruning is the identity on a chain built in topological order. *)
Lemma prune_chain g o :
  topological g = true -> reads_previous_from 0 g = true ->
  S o = List.length g ->
  prune_graph g [o] = g.
Proof.
  intros Ht Hc Ho. unfold prune_graph, ancestors.
  rewrite (sweep_chain (rev g) [o]).
  - rewrite rev_involutive, length_rev.
    transitivity (map snd (combine (seq 0 (List.length g)) g));
      [|apply map_snd_numbered].
    apply map_ext_in. intros [i n] Hin. unfold renumber. cbn [snd].
    destruct n as [l ins s]. cbn [n_layer n_inputs n_output]. f_equal.
    rewrite <- (map_id ins) at 2. apply map_ext_in. intros j Hj.
    rewrite position_numbered.
    apply in_combine_r in Hin. apply In_nth_error in Hin as [k Hk].
    pose proof (topological_from_spec g 0 Ht k _ Hk) as HF.
    rewrite Forall_forall in HF. specialize (HF j Hj).
    assert (k < List.length g)%nat
      by (apply nth_error_Some; congruence).
    cbn [n_inputs] in HF. lia.
  - rewrite rev_involutive. exact Hc.
  - intros E. apply (f_equal (@List.length node)) in E.
    rewrite length_rev in E. cbn [List.length] in E. lia.
  - rewrite length_rev. left. lia.
Qed.

(** The generator and the discriminator are chains: the model Keras makes
    of them holds every layer that was built. *)
Lemma default_models_keep_every_layer :
  (forall m,
      get_resnet_generator default_filters default_num_downsampling_blocks
        default_num_residual_blocks default_num_upsample_blocks default_name
      = inr m ->
      prune_graph (m_graph m) [kt_node (m_outputs m)] = m_graph m)
  /\ (forall name m,
        get_discriminator default_filters default_num_downsampling
                          (Some name) = inr m ->
        prune_graph (m_graph m) [kt_node (m_outputs m)] = m_graph m).
Proof.
  split.
  - intros m E. vm_compute in E. inversion E; subst m. clear E.
    apply prune_chain; reflexivity.
  - intros name m E. vm_compute in E. inversion E; subst m. clear E.
    apply prune_chain; reflexivity.
Qed.

(* ===================================================================== *)
(** * Invariants of graph construction *)
(* ===================================================================== *)

Lemma extends_refl g : extends g g.
Proof. exists []. now rewrite app_nil_r. Qed.

Lemma extends_trans g1 g2 g3 :
  extends g1 g2 -> extends g2 g3 -> extends g1 g3.
Proof.
  intros [a ->] [b ->]. exists (a ++ b). now rewrite app_assoc.
Qed.

Lemma shape_at_app g g2 j :
  (j < List.length g)%nat -> shape_at (g ++ g2) j = shape_at g j.
Proof.
  intros H. unfold shape_at. rewrite map_app, app_nth1; [reflexivity|].
  now rewrite length_map.
Qed.

Lemma valid_extends g g' x :
  valid_tensor g x -> extends g g' -> valid_tensor g' x.
Proof.
  intros [Hlt Hs] [g2 ->]. split.
  - rewrite length_app. lia.
  - now rewrite shape_at_app.
Qed.

Lemma node_ok_app g g2 i n :
  (i <= List.length g)%nat -> node_ok g i n -> node_ok (g ++ g2) i n.
Proof.
  intros Hi [Hin Hs]. split; [exact Hin|].
  rewrite <- Hs. f_equal. apply map_ext_in. intros j Hj.
  rewrite Forall_forall in Hin. apply shape_at_app.
  specialize (Hin j Hj). lia.
Qed.

Lemma call_inv_node l inputs g x g' :
  call l inputs g = inr (x, g') ->
  exists s,
    compute_output_shape l (map kt_shape inputs) = inr s
    /\ x = mkTensor (List.length g) s
    /\ g' = g ++ [mkNode l (map kt_node inputs) s].
Proof.
  unfold call. destruct (compute_output_shape _ _) as [e|s]; [discriminate|].
  intros H. inversion H. eauto.
Qed.

(** A layer call on valid tensors keeps the graph well-formed, only appends
    to it, and returns the output of the node it appended. *)
Lemma call_keeps l inputs g x g' :
  graph_ok g -> Forall (valid_tensor g) inputs ->
  call l inputs g = inr (x, g') ->
  graph_ok g' /\ extends g g' /\ valid_tensor g' x /\ last_node g' x.
Proof.
  intros Hg Hin H. apply call_inv_node in H as (s & Hs & -> & ->).
  split; [|split; [|split]].
  - intros i n Hn.
    destruct (Nat.lt_ge_cases i (List.length g)) as [Hi|Hi].
    + rewrite nth_error_app1 in Hn by exact Hi.
      apply node_ok_app; [lia|]. apply Hg, Hn.
    + rewrite nth_error_app2 in Hn by exact Hi.
      destruct (i - List.length g)%nat as [|k] eqn:Ek;
        [|destruct k; discriminate].
      simpl in Hn. inversion Hn; subst n. clear Hn.
      assert (i = List.length g) by lia. subst i.
      rewrite Forall_forall in Hin.
      split; cbn [n_inputs n_layer n_output].
      * apply Forall_map, Forall_forall. intros y Hy.
        apply (Hin y Hy).
      * rewrite <- Hs. f_equal. rewrite map_map.
        apply map_ext_in. intros y Hy.
        destruct (Hin y Hy) as [Hlt Hsh].
        rewrite shape_at_app by exact Hlt. exact Hsh.
  - eexists. reflexivity.
  - split; cbn [kt_node kt_shape].
    + rewrite length_app. simpl. lia.
    + unfold shape_at. rewrite map_app, app_nth2, length_map, Nat.sub_diag;
        [reflexivity|]. rewrite length_map. lia.
  - unfold last_node. cbn [kt_node]. rewrite length_app. simpl. lia.
Qed.

(** Peel one [call] off a successful run, keeping the invariants. *)
Ltac keep_call H x g0 :=
  let Hc := fresh "Hc" in
  let G := fresh "G" in let E := fresh "E" in
  let V := fresh "V" in let L := fresh "L" in
  apply bind_inv in H as (x & g0 & Hc & H);
  apply call_keeps in Hc as (G & E & V & L);
  [ | assumption
    | repeat (apply Forall_cons || apply Forall_nil);
      eauto using valid_extends, extends_trans, extends_refl ].

Lemma downsample_keeps x filters a ks st p ub g :
  graph_ok g -> valid_tensor g x ->
  keeps_graph g (downsample x filters a ks st p ub).
Proof.
  intros Hg Hx y g' H. unfold downsample in H.
  keep_call H x1 g1. keep_call H x2 g2.
  destruct a as [a|].
  - keep_call H x3 g3. unfold ret in H. inversion H; subst.
    eauto 10 using extends_trans.
  - unfold ret in H. inversion H; subst. eauto 10 using extends_trans.
Qed.

Lemma upsample_keeps x filters a ks st p ub g :
  graph_ok g -> valid_tensor g x ->
  keeps_graph g (upsample x filters a ks st p ub).
Proof.
  intros Hg Hx y g' H. unfold upsample in H.
  keep_call H x1 g1. keep_call H x2 g2.
  destruct a as [a|].
  - keep_call H x3 g3. unfold ret in H. inversion H; subst.
    eauto 10 using extends_trans.
  - unfold ret in H. inversion H; subst. eauto 10 using extends_trans.
Qed.

Lemma residual_block_keeps x a ks st p ub g :
  graph_ok g -> valid_tensor g x ->
  keeps_graph g (residual_block x a ks st p ub).
Proof.
  intros Hg Hx y g' H. unfold residual_block in H.
  apply bind_inv in H as (d & g0 & Hd & H).
  unfold last_dim in Hd.
  destruct (rev (kt_shape x)); [discriminate|].
  unfold ret in Hd. inversion Hd; subst d g0. clear Hd.
  keep_call H x1 g1.
  assert (E01 : extends g g1) by assumption.
  keep_call H x2 g2. assert (E02 : extends g g2) by eauto using extends_trans.
  keep_call H x3 g3. assert (E03 : extends g g3) by eauto using extends_trans.
  keep_call H x4 g4. assert (E04 : extends g g4) by eauto using extends_trans.
  keep_call H x5 g5. assert (E05 : extends g g5) by eauto using extends_trans.
  keep_call H x6 g6. assert (E06 : extends g g6) by eauto using extends_trans.
  keep_call H x7 g7. assert (E07 : extends g g7) by eauto using extends_trans.
  keep_call H x8 g8. assert (E08 : extends g g8) by eauto using extends_trans.
  unfold ret in H. inversion H; subst. auto.
Qed.

Lemma graph_ok_nil : graph_ok [].
Proof. intros i n H. destruct i; discriminate. Qed.

Lemma for_each_keeps {I S} (Inv : S -> graph -> Prop) (xs : list I)
      (body : I -> S -> builder S) :
  (forall i s g s' g', Inv s g -> body i s g = inr (s', g') -> Inv s' g') ->
  forall s g s' g',
    Inv s g -> for_each xs body s g = inr (s', g') -> Inv s' g'.
Proof.
  intros Hbody. induction xs as [|i xs IH]; intros s g s' g' HI H.
  - simpl in H. unfold ret in H. inversion H; subst. exact HI.
  - simpl in H. apply bind_inv in H as (s1 & g1 & H1 & H).
    eapply IH; [|exact H]. eapply Hbody; [exact HI|exact H1].
Qed.

Lemma loop_inv_step g0 x g (c : builder keras_tensor) y g' :
  loop_inv g0 x g -> keeps_graph g c -> c g = inr (y, g') ->
  loop_inv g0 y g'.
Proof.
  intros (G & E & V & L) Hk H.
  destruct (Hk y g' H) as (G' & E' & V' & L').
  unfold loop_inv. split; [exact G'|]. split; [|split; assumption].
  eapply extends_trans; eassumption.
Qed.

(** The three loops of the generator and the loop of the discriminator keep
    the invariant. *)
Lemma sample_loop_keeps g0 (xs : list Z)
      (block : keras_tensor -> Z -> builder keras_tensor)
      (next : Z -> Z -> Z) :
  (forall x f g, graph_ok g -> valid_tensor g x -> keeps_graph g (block x f)) ->
  forall s g s' g',
    loop_inv g0 (snd s) g ->
    for_each xs
      (fun i '(filters, x) =>
         let filters := next i filters in
         x <- block x filters ;; ret (filters, x)) s g = inr (s', g') ->
    loop_inv g0 (snd s') g'.
Proof.
  intros Hblock.
  apply (for_each_keeps (fun s g => loop_inv g0 (snd s) g)).
  intros i [f x] g [f' x'] g' HI H. cbn [snd] in *.
  apply bind_inv in H as (y & g1 & H1 & H).
  unfold ret in H. inversion H; subst.
  eapply loop_inv_step; [exact HI| |exact H1].
  destruct HI as (G & _ & V & _). apply Hblock; assumption.
Qed.

Lemma residual_loop_keeps g0 (xs : list Z) a ks st p ub :
  forall x g x' g',
    loop_inv g0 x g ->
    for_each xs (fun _ x => residual_block x a ks st p ub) x g
    = inr (x', g') ->
    loop_inv g0 x' g'.
Proof.
  apply (for_each_keeps (loop_inv g0)).
  intros i x g x' g' HI H.
  eapply loop_inv_step; [exact HI| |exact H].
  destruct HI as (G & _ & V & _). apply residual_block_keeps; assumption.
Qed.

Lemma call_loop_inv g0 l x g y g' :
  loop_inv g0 x g -> call l [x] g = inr (y, g') -> loop_inv g0 y g'.
Proof.
  intros HI H. eapply loop_inv_step; [exact HI| |exact H].
  destruct HI as (G & _ & V & _).
  intros z g2 Hz. apply (call_keeps l [x] g); auto.
Qed.

Lemma input_call shape_in name g x g' :
  call (InputLayer shape_in name) [] g = inr (x, g') ->
  x = mkTensor (List.length g) shape_in
  /\ g' = g ++ [mkNode (InputLayer shape_in name) [] shape_in].
Proof.
  intros H. apply call_inv_node in H as (s & Hs & -> & ->).
  simpl in Hs. inversion Hs; subst. auto.
Qed.

Lemma extends_head n g : extends [n] g -> nth_error g 0 = Some n.
Proof. intros [g2 ->]. reflexivity. Qed.

(** X1.  Every model [get_resnet_generator] returns, for any arguments, has
    a well-formed graph: each node reads only earlier nodes and records the
    shape its layer infers from them; node 0 is the single 256x256x3 input;
    the model's output is the output of the last node. *)
Theorem get_resnet_generator_graph_ok filters N M K name m :
  get_resnet_generator filters N M K name = inr m ->
  graph_ok (m_graph m)
  /\ nth_error (m_graph m) 0
     = Some (mkNode (InputLayer [256; 256; 3] None) [] [256; 256; 3])
  /\ m_inputs m = [mkTensor 0 [256; 256; 3]]
  /\ valid_tensor (m_graph m) (m_outputs m)
  /\ last_node (m_graph m) (m_outputs m).
Proof.
  unfold get_resnet_generator, build_model.
  match goal with
  | |- match ?c [] with _ => _ end = _ -> _ =>
      destruct (c []) as [e|[[ins out] g]] eqn:H; [discriminate|]
  end.
  intros Hm. inversion Hm; subst m. clear Hm. cbn [m_graph m_inputs m_outputs].
  apply bind_inv in H as (inputs & g1 & Hin & H).
  pose proof (call_keeps _ _ _ _ _ graph_ok_nil (Forall_nil _) Hin)
    as (G1 & _ & V1 & L1).
  apply input_call in Hin as [-> ->]. cbn [app List.length] in *.
  set (g0 := [mkNode (InputLayer [256; 256; 3] None) [] [256; 256; 3]]) in *.
  assert (I0 : loop_inv g0 (mkTensor 0 [256; 256; 3]) g0).
  { unfold loop_inv. split; [exact G1|].
    split; [apply extends_refl|split; assumption]. }
  apply bind_inv in H as (x1 & g1 & H1 & H).
  pose proof (call_loop_inv _ _ _ _ _ _ I0 H1) as I1.
  apply bind_inv in H as (x2 & g2 & H2 & H).
  pose proof (call_loop_inv _ _ _ _ _ _ I1 H2) as I2.
  apply bind_inv in H as (x3 & g3 & H3 & H).
  pose proof (call_loop_inv _ _ _ _ _ _ I2 H3) as I3.
  apply bind_inv in H as (x4 & g4 & H4 & H).
  pose proof (call_loop_inv _ _ _ _ _ _ I3 H4) as I4.
  apply bind_inv in H as ([f5 x5] & g5 & H5 & H).
  apply (sample_loop_keeps g0 _
           (fun x f => downsample x f (Some relu) default_kernel_size
                                  sample_default_strides Same false)
           (fun _ f => f * 2)
           (fun x f g Hg Hx => downsample_keeps x f _ _ _ _ _ g Hg Hx)
           (filters, x4) g4 (f5, x5) g5 I4) in H5.
  cbn [snd] in H5.
  apply bind_inv in H as (x6 & g6 & H6 & H).
  apply (residual_loop_keeps g0 _ _ _ _ _ _ _ _ _ _ H5) in H6.
  apply bind_inv in H as ([f7 x7] & g7 & H7 & H).
  apply (sample_loop_keeps g0 _
           (fun x f => upsample x f (Some relu) default_kernel_size
                                sample_default_strides Same false)
           (fun _ f => f / 2)
           (fun x f g Hg Hx => upsample_keeps x f _ _ _ _ _ g Hg Hx)
           (f5, x6) g6 (f7, x7) g7 H6) in H7.
  cbn [snd] in H7.
  apply bind_inv in H as (x8 & g8 & H8 & H).
  pose proof (call_loop_inv _ _ _ _ _ _ H7 H8) as I8.
  apply bind_inv in H as (x9 & g9 & H9 & H).
  pose proof (call_loop_inv _ _ _ _ _ _ I8 H9) as I9.
  apply bind_inv in H as (x10 & g10 & H10 & H).
  pose proof (call_loop_inv _ _ _ _ _ _ I9 H10) as (G & E & V & L).
  unfold ret in H. inversion H; subst.
  split; [exact G|]. split; [apply extends_head, E|].
  split; [reflexivity|]. split; assumption.
Qed.

Lemma get_resnet_generator_graph_ok_witness :
  exists m,
    get_resnet_generator 64 2 5 2 None = inr m
    /\ graph_ok (m_graph m)
    /\ last_node (m_graph m) (m_outputs m).
Proof.
  eexists. split; [vm_compute; reflexivity|].
  match goal with
  | |- graph_ok (m_graph ?m) /\ _ =>
      destruct (get_resnet_generator_graph_ok 64 2 5 2 None m)
        as (G & _ & _ & _ & L); [vm_compute; reflexivity|]
  end.
  split; assumption.
Defined.

(** X2.  The same holds of every model [get_discriminator] returns: the
    graph is well-formed, node 0 is the single 256x256x3 input named
    [name + "_img_input"], and the output is the output of the last
    node. *)
Theorem get_discriminator_graph_ok filters num_downsampling name m :
  get_discriminator filters num_downsampling name = inr m ->
  graph_ok (m_graph m)
  /\ (exists s,
        name = Some s
        /\ nth_error (m_graph m) 0
           = Some (mkNode (InputLayer [256; 256; 3]
                             (Some (s ++ "_img_input")%string))
                          [] [256; 256; 3]))
  /\ m_inputs m = [mkTensor 0 [256; 256; 3]]
  /\ valid_tensor (m_graph m) (m_outputs m)
  /\ last_node (m_graph m) (m_outputs m).
Proof.
  unfold get_discriminator, str_add, build_model.
  destruct name as [s|]; [|discriminate].
  match goal with
  | |- match ?c [] with _ => _ end = _ -> _ =>
      destruct (c []) as [e|[[ins out] g]] eqn:H; [discriminate|]
  end.
  intros Hm. inversion Hm; subst m. clear Hm. cbn [m_graph m_inputs m_outputs].
  apply bind_inv in H as (inputs & g1 & Hin & H).
  pose proof (call_keeps _ _ _ _ _ graph_ok_nil (Forall_nil _) Hin)
    as (G1 & _ & V1 & L1).
  apply input_call in Hin as [-> ->]. cbn [app List.length] in *.
  set (g0 := [mkNode (InputLayer [256; 256; 3]
                        (Some (s ++ "_img_input")%string))
                     [] [256; 256; 3]]) in *.
  assert (I0 : loop_inv g0 (mkTensor 0 [256; 256; 3]) g0).
  { unfold loop_inv. split; [exact G1|].
    split; [apply extends_refl|split; assumption]. }
  apply bind_inv in H as (x1 & g1 & H1 & H).
  pose proof (call_loop_inv _ _ _ _ _ _ I0 H1) as I1.
  apply bind_inv in H as (x2 & g2 & H2 & H).
  pose proof (call_loop_inv _ _ _ _ _ _ I1 H2) as I2.
  apply bind_inv in H as ([f3 x3] & g3 & H3 & H).
  apply (for_each_keeps (fun s g => loop_inv g0 (snd s) g))
    with (s := (filters, x2)) (g := g2) in H3;
    [|clear; intros i [f x] g [f' x'] g' HI Hb; cbn [snd] in *;
      destruct (i <? 2);
      apply bind_inv in Hb as (y & gy & Hy & Hb);
      unfold ret in Hb; inversion Hb; subst;
      (eapply loop_inv_step; [exact HI| |exact Hy]);
      destruct HI as (G & _ & V & _);
      apply downsample_keeps; assumption
     |exact I2].
  cbn [snd] in H3.
  apply bind_inv in H as (x4 & g4 & H4 & H).
  pose proof (call_loop_inv _ _ _ _ _ _ H3 H4) as (G & E & V & L).
  unfold ret in H. inversion H; subst.
  split; [exact G|].
  split; [exists s; split; [reflexivity|apply extends_head, E]|].
  split; [reflexivity|]. split; assumption.
Qed.

Lemma get_discriminator_graph_ok_witness :
  exists m,
    get_discriminator 64 3 (Some "disc") = inr m
    /\ graph_ok (m_graph m)
    /\ last_node (m_graph m) (m_outputs m).
Proof.
  eexists. split; [vm_compute; reflexivity|].
  match goal with
  | |- graph_ok (m_graph ?m) /\ _ =>
      destruct (get_discriminator_graph_ok 64 3 (Some "disc") m)
        as (G & _ & _ & _ & L); [vm_compute; reflexivity|]
  end.
  split; assumption.
Defined.

(* ===================================================================== *)
(** * More on [get_resnet_generator] *)
(* ===================================================================== *)

(** X3.  For all arguments that keep the filter counts positive, the
    generator is built and its output shape is (s, s, 3), where s is 256
    halved (rounding up) once per downsampling block and doubled once per
    upsampling block; neither [filters] nor the number of residual blocks
    enters.  The output is 256x256x3 exactly when the number of upsampling
    blocks is the smaller of the number of downsampling blocks and 8. *)
Theorem get_resnet_generator_output_side filters N M K name :
  0 < filters ->
  0 < filters * 2 ^ Z.max 0 N / 2 ^ Z.max 0 K ->
  exists m,
    get_resnet_generator filters N M K name = inr m
    /\ input_shapes m = [[256; 256; 3]]
    /\ output_shape m =
         [downsampled (Z.to_nat N) 256 * 2 ^ Z.max 0 K;
          downsampled (Z.to_nat N) 256 * 2 ^ Z.max 0 K; 3]
    /\ (output_shape m = [256; 256; 3]
        <-> Z.max 0 K = Z.min (Z.max 0 N) 8).
Proof.
  intros Hf Hup.
  assert (EN : Z.of_nat (Z.to_nat N) = Z.max 0 N) by lia.
  assert (EK : Z.of_nat (Z.to_nat K) = Z.max 0 K) by lia.
  assert (Hup' : 0 < filters * 2 ^ Z.of_nat (Z.to_nat N)
                     / 2 ^ Z.of_nat (Z.to_nat K))
    by (rewrite EN, EK; exact Hup).
  destruct (resnet_generator_runs filters N M K name Hf Hup')
    as (m & E & Hin & Hout & _).
  exists m. split; [exact E|]. split; [exact Hin|].
  split; [rewrite Hout, EK; reflexivity|].
  rewrite (get_resnet_generator_shape_iff filters N M K name m E Hf Hup').
  lia.
Qed.

Lemma get_resnet_generator_output_side_witness :
  exists m,
    get_resnet_generator 32 3 9 1 None = inr m
    /\ input_shapes m = [[256; 256; 3]]
    /\ output_shape m =
         [downsampled (Z.to_nat 3) 256 * 2 ^ Z.max 0 1;
          downsampled (Z.to_nat 3) 256 * 2 ^ Z.max 0 1; 3]
    /\ (output_shape m = [256; 256; 3]
        <-> Z.max 0 1 = Z.min (Z.max 0 3) 8).
Proof.
  apply (get_resnet_generator_output_side 32 3 9 1 None).
  - lia.
  - vm_compute. reflexivity.
Defined.

Lemma length_down_stage n : forall f,
  List.length (down_stage n f) = (3 * n)%nat.
Proof.
  induction n as [|n IH]; intros f; [reflexivity|].
  simpl. rewrite IH. lia.
Qed.

Lemma length_up_stage n : forall f,
  List.length (up_stage n f) = (3 * n)%nat.
Proof.
  induction n as [|n IH]; intros f; [reflexivity|].
  simpl. rewrite IH. lia.
Qed.

Lemma length_residual_stage n dim :
  List.length (List.concat (repeat (residual_layers dim) n)) = (8 * n)%nat.
Proof.
  induction n as [|n IH]; [reflexivity|].
  cbn [repeat List.concat]. rewrite length_app, IH. simpl. lia.
Qed.

Lemma adds_down_stage n : forall f, filter is_add (down_stage n f) = [].
Proof.
  induction n as [|n IH]; intros f; [reflexivity|].
  simpl. apply IH.
Qed.

Lemma adds_up_stage n : forall f, filter is_add (up_stage n f) = [].
Proof.
  induction n as [|n IH]; intros f; [reflexivity|].
  simpl. apply IH.
Qed.

Lemma adds_residual_stage n dim :
  filter is_add (List.concat (repeat (residual_layers dim) n))
  = repeat Add n.
Proof.
  induction n as [|n IH]; [reflexivity|].
  cbn [repeat List.concat]. rewrite filter_app, IH. reflexivity.
Qed.

(** X4.  A generator with N downsampling, M residual and K upsampling
    blocks has 8 + 3N + 8M + 3K layers, exactly M of which are skip
    additions. *)
Theorem get_resnet_generator_layer_count filters N M K name :
  0 < filters -> 0 <= N -> 0 <= M -> 0 <= K ->
  0 < filters * 2 ^ N / 2 ^ K ->
  exists m,
    get_resnet_generator filters N M K name = inr m
    /\ Z.of_nat (List.length (m_graph m)) = 8 + 3 * N + 8 * M + 3 * K
    /\ filter is_add (layers_of m) = repeat Add (Z.to_nat M).
Proof.
  intros Hf HN HM HK Hup.
  destruct (resnet_generator_runs filters N M K name Hf)
    as (m & E & _ & _ & HL & _).
  { rewrite !Z2Nat.id by assumption. exact Hup. }
  exists m. split; [exact E|]. split.
  - replace (List.length (m_graph m)) with (List.length (layers_of m))
      by (unfold layers_of; apply length_map).
    rewrite HL, !length_app, length_down_stage, length_up_stage,
      length_residual_stage.
    simpl List.length. lia.
  - rewrite HL, !filter_app, adds_down_stage, adds_up_stage,
      adds_residual_stage.
    simpl. now rewrite app_nil_r.
Qed.

Lemma get_resnet_generator_layer_count_witness :
  exists m,
    get_resnet_generator 64 2 5 2 None = inr m
    /\ Z.of_nat (List.length (m_graph m)) = 8 + 3 * 2 + 8 * 5 + 3 * 2
    /\ filter is_add (layers_of m) = repeat Add (Z.to_nat 5).
Proof.
  apply (get_resnet_generator_layer_count 64 2 5 2 None); try lia.
  vm_compute. reflexivity.
Defined.

Lemma flat_map_ext_in {A B} (f g : A -> list B) (l : list A) :
  (forall a, In a l -> f a = g a) -> flat_map f l = flat_map g l.
Proof.
  induction l as [|a l IH]; intros H; [reflexivity|].
  simpl. rewrite (H a (or_introl eq_refl)), IH; [reflexivity|].
  intros b Hb. apply H. right. exact Hb.
Qed.

Lemma In_steps n j : In j (steps n) -> 1 <= j <= n.
Proof.
  unfold steps. rewrite in_map_iff. intros (i & <- & Hi).
  apply in_seq in Hi. lia.
Qed.

(** X5.  With no more upsampling than downsampling blocks the floor
    division never rounds: the j-th upsampling block has exactly
    [filters * 2^(N-j)] channels, and the generator is built for every
    positive [filters]. *)
Theorem get_resnet_generator_exact_halving filters N M K name :
  0 < filters -> 0 <= K <= N ->
  exists m,
    get_resnet_generator filters N M K name = inr m
    /\ layers_of m =
         [InputLayer [256; 256; 3] None;
          ReflectionPadding2D (3, 3);
          Conv2D filters (7, 7) (1, 1) Valid false None;
          InstanceNormalization; Act relu]
         ++ flat_map (fun i => downsample_layers (filters * 2 ^ i)) (steps N)
         ++ List.concat (repeat (residual_layers (filters * 2 ^ N))
                                (Z.to_nat M))
         ++ flat_map (fun j => upsample_layers (filters * 2 ^ (N - j)))
                     (steps K)
         ++ [ReflectionPadding2D (3, 3);
             Conv2D 3 (7, 7) (1, 1) Valid true None;
             Act tanh_act].
Proof.
  intros Hf [HK HN].
  assert (Hdiv : forall j, 0 <= j <= N ->
                           filters * 2 ^ N / 2 ^ j = filters * 2 ^ (N - j)).
  { intros j Hj.
    replace N with ((N - j) + j) at 1 by lia.
    rewrite Z.pow_add_r by lia.
    rewrite Z.mul_assoc, Z.div_mul; [reflexivity|].
    apply Z.pow_nonzero; lia. }
  destruct (resnet_generator_runs filters N M K name Hf)
    as (m & E & _ & _ & HL & _).
  { rewrite !Z2Nat.id by lia. rewrite Hdiv by lia.
    apply Z.mul_pos_pos; [lia|]. apply Z.pow_pos_nonneg; lia. }
  exists m. split; [exact E|].
  rewrite HL, stage_layers_closed. unfold resnet_generator_layers.
  replace (Z.max 0 N) with N by lia.
  do 3 f_equal. f_equal.
  apply flat_map_ext_in. intros j Hj. apply In_steps in Hj.
  rewrite Hdiv by lia. reflexivity.
Qed.

Lemma get_resnet_generator_exact_halving_witness :
  exists m,
    get_resnet_generator 3 2 1 1 None = inr m
    /\ layers_of m =
         [InputLayer [256; 256; 3] None;
          ReflectionPadding2D (3, 3);
          Conv2D 3 (7, 7) (1, 1) Valid false None;
          InstanceNormalization; Act relu]
         ++ flat_map (fun i => downsample_layers (3 * 2 ^ i)) (steps 2)
         ++ List.concat (repeat (residual_layers (3 * 2 ^ 2)) (Z.to_nat 1))
         ++ flat_map (fun j => upsample_layers (3 * 2 ^ (2 - j))) (steps 1)
         ++ [ReflectionPadding2D (3, 3);
             Conv2D 3 (7, 7) (1, 1) Valid true None;
             Act tanh_act].
Proof.
  apply (get_resnet_generator_exact_halving 3 2 1 1 None); lia.
Defined.

(* ===================================================================== *)
(** * More on the block builders *)
(* ===================================================================== *)

Lemma half_up_of_double h : half_up (h * 2) = h.
Proof.
  unfold half_up. replace (h * 2 + 1) with (1 + h * 2) by lia.
  rewrite Z.div_add by lia. reflexivity.
Qed.

Lemma half_up_bounds h : h <= half_up h * 2 <= h + 1.
Proof.
  rewrite half_up_double.
  pose proof (Z.mod_pos_bound h 2 ltac:(lia)). lia.
Qed.

(** X6.  [upsample] followed by [downsample] with the same [filters]
    (default strides, padding "same") brings every tensor back to its own
    spatial resolution, odd sizes included; the channel count is
    [filters]. *)
Theorem upsample_downsample_resolution x filters a1 a2 k1 k2 ub1 ub2 g h w c :
  kt_shape x = [h; w; c] -> 0 < h -> 0 < w -> 0 < c -> 0 < filters ->
  0 < fst k1 -> 0 < snd k1 -> 0 < fst k2 -> 0 < snd k2 ->
  exists z g',
    upsample_then_downsample x filters a1 a2 k1 k2 ub1 ub2 g = inr (z, g')
    /\ kt_shape z = [h; w; filters].
Proof.
  intros Hx Hh Hw Hc Hf Hk1 Hk1' Hk2 Hk2'.
  destruct x as [i s]. simpl in Hx. subst s.
  destruct k1 as [k1h k1w], k2 as [k2h k2w]. simpl in *.
  assert (R : runs_to
                (upsample_then_downsample (mkTensor i [h; w; c]) filters a1 a2
                   (k1h, k1w) (k2h, k2w) ub1 ub2) g
                (fun z _ => kt_shape z = [half_up (h * 2); half_up (w * 2);
                                          filters])).
  { unfold upsample_then_downsample, downsample, upsample,
      sample_default_strides.
    apply runs_bind. do 2 run_call.
    destruct a1 as [a1|].
    - run_call. apply runs_ret. do 2 run_call.
      destruct a2 as [a2|]; [run_call|]; apply runs_ret; reflexivity.
    - apply runs_ret. do 2 run_call.
      destruct a2 as [a2|]; [run_call|]; apply runs_ret; reflexivity. }
  destruct R as (z & g' & E & S).
  exists z, g'. split; [exact E|].
  rewrite S, !half_up_of_double. reflexivity.
Qed.

Lemma upsample_downsample_resolution_witness :
  let g := [mkNode (InputLayer [5; 7; 3] None) [] [5; 7; 3]] in
  let x := mkTensor 0 [5; 7; 3] in
  exists z g',
    upsample_then_downsample x 8 (Some relu) None (3, 3) (3, 3)
                             false false g = inr (z, g')
    /\ kt_shape z = [5; 7; 8].
Proof.
  cbv zeta.
  apply (upsample_downsample_resolution _ 8 (Some relu) None (3, 3) (3, 3)
           false false _ 5 7 3);
    simpl; solve [reflexivity | lia].
Defined.

(** X7.  On a tensor of shape (H, W, C) with positive sizes, for any
    kernel, bias flag and activation (also none):
    [downsample] with the default strides and padding returns
    (ceil(H/2), ceil(W/2), filters), and [upsample] returns
    (2H, 2W, filters).  With an activation each appends three nodes to the
    graph, without one two; the shape is the same either way. *)
Theorem sample_block_shapes x filters a ks ub g h w c :
  kt_shape x = [h; w; c] -> 0 < h -> 0 < w -> 0 < c -> 0 < filters ->
  0 < fst ks -> 0 < snd ks ->
  (exists y g',
      downsample x filters a ks sample_default_strides Same ub g
      = inr (y, g')
      /\ kt_shape y = [half_up h; half_up w; filters]
      /\ h <= half_up h * 2 <= h + 1 /\ w <= half_up w * 2 <= w + 1
      /\ List.length g' = (List.length g + match a with Some _ => 3 | None => 2 end)%nat)
  /\ (exists y g',
        upsample x filters a ks sample_default_strides Same ub g
        = inr (y, g')
        /\ kt_shape y = [h * 2; w * 2; filters]
        /\ List.length g' = (List.length g + match a with Some _ => 3 | None => 2 end)%nat).
Proof.
  intros Hx Hh Hw Hc Hf Hk Hk'.
  destruct x as [i s]. simpl in Hx. subst s.
  destruct ks as [kh kw]. simpl in *.
  split.
  - assert (R : runs_to
                  (downsample (mkTensor i [h; w; c]) filters a (kh, kw)
                     sample_default_strides Same ub) g
                  (fun y g' =>
                     kt_shape y = [half_up h; half_up w; filters]
                     /\ List.length g'
                        = (List.length g + match a with Some _ => 3 | None => 2 end)%nat)).
    { unfold downsample, sample_default_strides. do 2 run_call.
      destruct a as [a|]; [run_call|]; apply runs_ret;
        (split; [reflexivity|rewrite !length_app; simpl; lia]). }
    destruct R as (y & g' & E & S & L).
    exists y, g'. pose proof (half_up_bounds h). pose proof (half_up_bounds w).
    repeat split; try assumption; lia.
  - assert (R : runs_to
                  (upsample (mkTensor i [h; w; c]) filters a (kh, kw)
                     sample_default_strides Same ub) g
                  (fun y g' =>
                     kt_shape y = [h * 2; w * 2; filters]
                     /\ List.length g'
                        = (List.length g + match a with Some _ => 3 | None => 2 end)%nat)).
    { unfold upsample, sample_default_strides. do 2 run_call.
      destruct a as [a|]; [run_call|]; apply runs_ret;
        (split; [reflexivity|rewrite !length_app; simpl; lia]). }
    destruct R as (y & g' & E & S & L).
    exists y, g'. auto.
Qed.

Lemma sample_block_shapes_witness :
  let g := [mkNode (InputLayer [5; 7; 3] None) [] [5; 7; 3]] in
  let x := mkTensor 0 [5; 7; 3] in
  (exists y g',
      downsample x 8 None (4, 4) sample_default_strides Same true g
      = inr (y, g')
      /\ kt_shape y = [half_up 5; half_up 7; 8]
      /\ 5 <= half_up 5 * 2 <= 5 + 1 /\ 7 <= half_up 7 * 2 <= 7 + 1
      /\ List.length g' = (List.length g + 2)%nat)
  /\ (exists y g',
        upsample x 8 None (4, 4) sample_default_strides Same true g
        = inr (y, g')
        /\ kt_shape y = [5 * 2; 7 * 2; 8]
        /\ List.length g' = (List.length g + 2)%nat).
Proof.
  cbv zeta.
  apply (sample_block_shapes _ 8 None (4, 4) true _ 5 7 3);
    simpl; solve [reflexivity | lia].
Defined.

Lemma broadcast_dim_mismatch i j :
  i <> 1 -> j <> 1 -> i <> j ->
  broadcast_dim i j
  = inl (ValueError "Operands could not be broadcast together").
Proof.
  intros Hi Hj Hij. unfold broadcast_dim.
  destruct (Z.eqb_spec i 1); [contradiction|].
  destruct (Z.eqb_spec j 1); [contradiction|].
  destruct (Z.eqb_spec i j); [contradiction|reflexivity].
Qed.

(** X8.  With strides (1, 1) and padding "same" the two padded
    convolutions of [residual_block] grow the map by four rows and
    columns, so for every input with H >= 2 the skip addition raises
    ValueError, whatever the kernel, activation and bias flag. *)
Theorem residual_block_same_padding_raises x a ks ub g h w c :
  kt_shape x = [h; w; c] -> 2 <= h -> 1 <= w -> 1 <= c ->
  0 < fst ks -> 0 < snd ks ->
  residual_block x a ks residual_default_strides Same ub g
  = inl (ValueError "Operands could not be broadcast together").
Proof.
  intros Hx Hh Hw Hc Hk Hk'.
  destruct x as [i s]. simpl in Hx. subst s.
  destruct ks as [kh kw]. simpl in *.
  unfold residual_block, residual_default_strides, last_dim.
  simpl kt_shape. simpl rev.
  erewrite bind_ok by reflexivity.
  do 7 call_step.
  unfold bind, call. cbn [map kt_shape compute_output_shape].
  rewrite broadcast_dim_mismatch; [reflexivity|lia| |];
    rewrite ?conv_same_stride1; lia.
Qed.

Lemma residual_block_same_padding_raises_witness :
  let g := [mkNode (InputLayer [64; 64; 256] None) [] [64; 64; 256]] in
  residual_block (mkTensor 0 [64; 64; 256]) relu (3, 3)
                 residual_default_strides Same false g
  = inl (ValueError "Operands could not be broadcast together").
Proof.
  cbv zeta.
  apply (residual_block_same_padding_raises _ relu (3, 3) false _ 64 64 256);
    simpl; solve [reflexivity | lia].
Defined.

(* ===================================================================== *)
(** * More on [efficientnet_generator] and [get_discriminator] *)
(* ===================================================================== *)

Lemma py_index_minus_36 {A} (l : list A) a :
  (36 <= List.length l)%nat ->
  nth_error l (List.length l - 36) = Some a ->
  py_index l (-36) = inr ((List.length l - 36)%nat, a).
Proof.
  intros Hlen Hn. unfold py_index.
  change (-36 <? 0) with true. cbv iota.
  assert (E1 : (0 <=? -36 + Z.of_nat (List.length l)) = true)
    by (apply Z.leb_le; lia).
  assert (E2 : (-36 + Z.of_nat (List.length l) <? Z.of_nat (List.length l))
               = true) by (apply Z.ltb_lt; lia).
  rewrite E1, E2. cbn [andb].
  replace (Z.to_nat (-36 + Z.of_nat (List.length l)))
    with (List.length l - 36)%nat by lia.
  now rewrite Hn.
Qed.

(** X10.  [efficientnet_generator] returns a model exactly when the
    backbone has at least 36 layers and the layer at position -36 has a
    rank-3 per-sample output shape (height, width, channels) with positive
    sizes; in every other case it raises. *)
Theorem efficientnet_generator_builds_iff model :
  (exists m, efficientnet_generator model = inr m)
  <-> (exists tapped h w c,
         (36 <= List.length (m_graph model))%nat
         /\ nth_error (m_graph model) (List.length (m_graph model) - 36)
            = Some tapped
         /\ n_output tapped = [h; w; c]
         /\ 0 < h /\ 0 < w /\ 0 < c).
Proof.
  split.
  - intros [m H].
    destruct (efficientnet_generator_inv model m H)
      as (i & tapped & h & w & c & Hi & Hs & Hh & Hw & Hc).
    destruct (py_index_from_end (m_graph model) (-36) i tapped
                ltac:(lia) Hi) as [Hlen Hnth].
    exists tapped, h, w, c.
    replace (List.length (m_graph model) - 36)%nat with i by lia.
    repeat split; try assumption; lia.
  - intros (tapped & h & w & c & Hlen & Hnth & Hs & Hh & Hw & Hc).
    destruct (efficientnet_generator_runs model _ tapped h w c
                (py_index_minus_36 _ _ Hlen Hnth) Hs Hh Hw Hc)
      as (m & E & _).
    exists m. exact E.
Qed.

(** X11.  [get_discriminator] cannot be called without a name: with
    [name=None] it raises TypeError whatever the other arguments are, and
    for positive [filters] it returns a model exactly when a name is
    given. *)
Theorem get_discriminator_needs_name filters num_downsampling :
  get_discriminator filters num_downsampling None
  = inl (TypeError "unsupported operand type(s) for +: 'NoneType' and 'str'")
  /\ (0 < filters ->
      forall name,
        (exists m, get_discriminator filters num_downsampling name = inr m)
        <-> name <> None).
Proof.
  split; [reflexivity|].
  intros Hf name. split.
  - intros [m H] ->. discriminate.
  - intros Hn. destruct name as [s|]; [|contradiction].
    destruct (discriminator_runs filters num_downsampling s Hf)
      as (m & E & _).
    exists m. exact E.
Qed.

Lemma get_discriminator_needs_name_witness :
  (exists m, get_discriminator 64 3 (Some "disc_Y") = inr m)
  <-> Some "disc_Y" <> None.
Proof.
  apply (proj2 (get_discriminator_needs_name 64 3)). lia.
Defined.

(* ===================================================================== *)
(** * More on [ReflectionPadding2D.call] *)
(* ===================================================================== *)

Lemma mirror_pad_map {X Y} (f : X -> Y) p q (l : list X) :
  map f (mirror_pad p q l) = mirror_pad p q (map f l).
Proof.
  unfold mirror_pad.
  rewrite !map_app, map_rev, <- !firstn_map, <- !tl_map, map_rev.
  reflexivity.
Qed.

Lemma mirror_pad_axis_map {X Y} (f : X -> Y) before after (l : list X) :
  mirror_pad_axis before after (map f l)
  = rmap (map f) (mirror_pad_axis before after l).
Proof.
  unfold mirror_pad_axis. rewrite length_map.
  destruct ((before <? 0) || (after <? 0)); [reflexivity|].
  destruct ((before <? Z.of_nat (List.length l))
            && (after <? Z.of_nat (List.length l))); [|reflexivity].
  cbn [rmap]. now rewrite mirror_pad_map.
Qed.

Lemma mapM_natural {X X' Y Y'} (F : X -> result Y) (F' : X' -> result Y')
      (f : X -> X') (f' : Y -> Y') (l : list X) :
  (forall x, F' (f x) = rmap f' (F x)) ->
  mapM F' (map f l) = rmap (map f') (mapM F l).
Proof.
  intros H. induction l as [|x l IH]; [reflexivity|].
  cbn [map mapM]. rewrite H, IH.
  destruct (F x); [reflexivity|]. cbn [rmap].
  destruct (mapM F l); reflexivity.
Qed.

(** X12.  Padding commutes with every element-wise function: applying [f]
    to each entry and then padding gives the same result, or the same
    exception, as padding first and applying [f] afterwards. *)
Theorem ReflectionPadding2D_call_tmap4 {A B} (f : A -> B) (padding : Z * Z)
        (t : tensor4 A) :
  ReflectionPadding2D_call padding (tmap4 f t)
  = rmap (tmap4 f) (ReflectionPadding2D_call padding t).
Proof.
  destruct padding as [pw ph].
  unfold ReflectionPadding2D_call, tf_pad_reflect, tmap4.
  rewrite mirror_pad_axis_map.
  destruct (mirror_pad_axis 0 0 t) as [e|t0]; [reflexivity|]. cbn [rmap].
  apply mapM_natural. intros img.
  rewrite mirror_pad_axis_map.
  destruct (mirror_pad_axis ph ph img) as [e|img1]; [reflexivity|].
  cbn [rmap].
  apply mapM_natural. intros row.
  rewrite mirror_pad_axis_map.
  destruct (mirror_pad_axis pw pw row) as [e|row2]; [reflexivity|].
  cbn [rmap].
  apply mapM_natural. intros px. apply mirror_pad_axis_map.
Qed.

Lemma mapM_inv {X Y} (f : X -> result Y) (l : list X) ys :
  mapM f l = inr ys -> forall x, In x l -> exists y, f x = inr y.
Proof.
  revert ys. induction l as [|a l IH]; intros ys H x Hx; [contradiction|].
  cbn [mapM] in H.
  destruct (f a) as [e|y] eqn:Ea; [discriminate|].
  destruct (mapM f l) as [e|ys'] eqn:El; [discriminate|].
  destruct Hx as [<-|Hx]; [eauto|]. eapply IH; [reflexivity|exact Hx].
Qed.

Lemma mirror_pad_axis_inv {X} before after (l l' : list X) :
  mirror_pad_axis before after l = inr l' ->
  0 <= before < Z.of_nat (List.length l)
  /\ 0 <= after < Z.of_nat (List.length l).
Proof.
  unfold mirror_pad_axis.
  destruct ((before <? 0) || (after <? 0)) eqn:E1; [discriminate|].
  destruct ((before <? Z.of_nat (List.length l))
            && (after <? Z.of_nat (List.length l))) eqn:E2; [|discriminate].
  intros _. apply orb_false_elim in E1 as [E1 E1'].
  apply andb_prop in E2 as [E2 E2'].
  apply Z.ltb_ge in E1, E1'. apply Z.ltb_lt in E2, E2'. lia.
Qed.

(** X13.  On a non-empty tensor of shape (batch, height, width, channels)
    the call returns a tensor exactly when both margins are non-negative,
    the height margin is below the height and the width margin below the
    width; otherwise it raises. *)
Theorem ReflectionPadding2D_call_succeeds_iff {A} (t : tensor4 A) b h w c
        (width_pad height_pad : Z) :
  has_shape4 t b h w c -> (1 <= b)%nat -> (1 <= c)%nat ->
  ((exists t', ReflectionPadding2D_call (width_pad, height_pad) t = inr t')
   <-> 0 <= height_pad < Z.of_nat h /\ 0 <= width_pad < Z.of_nat w).
Proof.
  intros Hs Hb Hc. split.
  - intros [t' H]. destruct Hs as [Hlen Ht].
    unfold ReflectionPadding2D_call, tf_pad_reflect in H.
    rewrite mirror_pad_axis_id in H by lia.
    destruct t as [|img t]; [simpl in Hlen; lia|].
    destruct (mapM_inv _ _ _ H img (or_introl eq_refl)) as [img' Himg].
    inversion Ht as [|? ? [Hh Hrows] _]; subst.
    destruct (mirror_pad_axis height_pad height_pad img)
      as [e|img1] eqn:E1; [discriminate|].
    pose proof (mirror_pad_axis_inv _ _ _ _ E1) as [B1 _].
    split; [lia|].
    assert (Eimg1 : img1 = mirror_pad (Z.to_nat height_pad)
                                      (Z.to_nat height_pad) img).
    { unfold mirror_pad_axis in E1.
      destruct (_ || _); [discriminate|].
      destruct (_ && _); [|discriminate]. now inversion E1. }
    destruct img1 as [|row img1].
    { apply (f_equal (@List.length _)) in Eimg1.
      rewrite length_mirror_pad in Eimg1 by lia. simpl in Eimg1. lia. }
    destruct (mapM_inv _ _ _ Himg row (or_introl eq_refl)) as [row' Hrow].
    assert (Hin : In row img).
    { apply (In_mirror_pad (Z.to_nat height_pad) (Z.to_nat height_pad)).
      rewrite <- Eimg1. left. reflexivity. }
    rewrite Forall_forall in Hrows. destruct (Hrows row Hin) as [Hw _].
    destruct (mirror_pad_axis width_pad width_pad row)
      as [e|row2] eqn:E2; [discriminate|].
    pose proof (mirror_pad_axis_inv _ _ _ _ E2) as [B2 _]. lia.
  - intros [Hh Hw].
    exists (reflect_pad4 (Z.to_nat height_pad) (Z.to_nat width_pad) t).
    rewrite <- (Z2Nat.id width_pad) at 1 by lia.
    rewrite <- (Z2Nat.id height_pad) at 1 by lia.
    apply (ReflectionPadding2D_call_ok t b h w c); try assumption; lia.
Qed.

Lemma ReflectionPadding2D_call_succeeds_iff_witness :
  (exists t', ReflectionPadding2D_call (2, 1)
                [[[[1]; [2]; [3]]; [[4]; [5]; [6]]]] = inr t')
  <-> 0 <= 1 < Z.of_nat 2 /\ 0 <= 2 < Z.of_nat 3.
Proof.
  apply (ReflectionPadding2D_call_succeeds_iff
           [[[[1]; [2]; [3]]; [[4]; [5]; [6]]]] 1 2 3 1 2 1).
  - unfold has_shape4. split; [reflexivity|]. repeat constructor.
  - lia.
  - lia.
Defined.

Lemma reflect_index_mirror_low n p d :
  (d <= p)%nat -> (p < n)%nat ->
  reflect_index n p (p - d) = d /\ reflect_index n p (p + d) = d.
Proof.
  intros Hd Hp. unfold reflect_index. split.
  - destruct (Nat.ltb_spec (p - d) p); [lia|].
    destruct (Nat.ltb_spec (p - d) (p + n)); lia.
  - destruct (Nat.ltb_spec (p + d) p); [lia|].
    destruct (Nat.ltb_spec (p + d) (p + n)); lia.
Qed.

Lemma reflect_index_mirror_high n p d :
  (d <= p)%nat -> (p < n)%nat ->
  reflect_index n p (p + n - 1 - d) = (n - 1 - d)%nat
  /\ reflect_index n p (p + n - 1 + d) = (n - 1 - d)%nat.
Proof.
  intros Hd Hp. unfold reflect_index. split.
  - destruct (Nat.ltb_spec (p + n - 1 - d) p); [lia|].
    destruct (Nat.ltb_spec (p + n - 1 - d) (p + n)); lia.
  - destruct (Nat.ltb_spec (p + n - 1 + d) p); [lia|].
    destruct (Nat.ltb_spec (p + n - 1 + d) (p + n)); lia.
Qed.

(** X14.  The padded tensor is mirror-symmetric about each border of the
    input: the row d above the first input row equals the row d below it,
    the row d below the last input row equals the row d above it, and the
    same for columns, for every d up to the margin. *)
Theorem ReflectionPadding2D_mirror_symmetry {A} (t : tensor4 A) b h w c
        (width_pad height_pad : nat) :
  has_shape4 t b h w c ->
  (1 <= b)%nat -> (1 <= c)%nat ->
  (height_pad < h)%nat -> (width_pad < w)%nat ->
  exists t',
    ReflectionPadding2D_call (Z.of_nat width_pad, Z.of_nat height_pad) t
    = inr t'
    /\ (forall n d j k,
          (n < b)%nat -> (d <= height_pad)%nat ->
          (j < w + 2 * width_pad)%nat ->
          tget t' n (height_pad - d) j k = tget t' n (height_pad + d) j k
          /\ tget t' n (height_pad + h - 1 - d) j k
             = tget t' n (height_pad + h - 1 + d) j k)
    /\ (forall n i d k,
          (n < b)%nat -> (i < h + 2 * height_pad)%nat ->
          (d <= width_pad)%nat ->
          tget t' n i (width_pad - d) k = tget t' n i (width_pad + d) k
          /\ tget t' n i (width_pad + w - 1 - d) k
             = tget t' n i (width_pad + w - 1 + d) k).
Proof.
  intros Hs Hb Hc Hph Hpw.
  exists (reflect_pad4 height_pad width_pad t).
  split; [apply (ReflectionPadding2D_call_ok t b h w c); assumption|].
  split.
  - intros n d j k Hn Hd Hj.
    destruct (reflect_index_mirror_low h height_pad d Hd Hph) as [L1 L2].
    destruct (reflect_index_mirror_high h height_pad d Hd Hph) as [U1 U2].
    rewrite !(tget_reflect_pad4 t b h w c) by (assumption || lia).
    rewrite L1, L2, U1, U2. auto.
  - intros n i d k Hn Hi Hd.
    destruct (reflect_index_mirror_low w width_pad d Hd Hpw) as [L1 L2].
    destruct (reflect_index_mirror_high w width_pad d Hd Hpw) as [U1 U2].
    rewrite !(tget_reflect_pad4 t b h w c) by (assumption || lia).
    rewrite L1, L2, U1, U2. auto.
Qed.

Lemma ReflectionPadding2D_mirror_symmetry_witness :
  exists t',
    ReflectionPadding2D_call (Z.of_nat 1, Z.of_nat 1)
      [[[[1]; [2]; [3]]; [[4]; [5]; [6]]; [[7]; [8]; [9]]]]
    = inr t'
    /\ tget t' 0 0 1 0 = tget t' 0 2 1 0.
Proof.
  destruct (ReflectionPadding2D_mirror_symmetry
              [[[[1]; [2]; [3]]; [[4]; [5]; [6]]; [[7]; [8]; [9]]]]
              1 3 3 1 1 1) as (t' & E & Hrow & _).
  - unfold has_shape4. split; [reflexivity|]. repeat constructor.
  - lia.
  - lia.
  - lia.
  - lia.
  - exists t'. split; [exact E|].
    apply (Hrow 0%nat 1%nat 1%nat 0%nat); lia.
Defined.

Lemma map_mirror_pad_0 {X} (l : list (list X)) :
  map (mirror_pad 0 0) l = l.
Proof.
  rewrite <- (map_id l) at 2. apply map_ext. intros a. apply mirror_pad_0.
Qed.

Lemma reflect_pad4_0 {A} (t : tensor4 A) : reflect_pad4 0 0 t = t.
Proof.
  unfold reflect_pad4. rewrite <- (map_id t) at 2.
  apply map_ext. intros img. now rewrite mirror_pad_0, map_mirror_pad_0.
Qed.

(** X15.  With padding (0, 0) the layer returns its input unchanged, for
    every tensor with no empty axis. *)
Theorem ReflectionPadding2D_zero_padding {A} (t : tensor4 A) b h w c :
  has_shape4 t b h w c ->
  (1 <= b)%nat -> (1 <= h)%nat -> (1 <= w)%nat -> (1 <= c)%nat ->
  ReflectionPadding2D_call (0, 0) t = inr t.
Proof.
  intros Hs Hb Hh Hw Hc.
  change (0, 0) with (Z.of_nat 0, Z.of_nat 0).
  rewrite (ReflectionPadding2D_call_ok t b h w c) by (assumption || lia).
  now rewrite reflect_pad4_0.
Qed.

Lemma ReflectionPadding2D_zero_padding_witness :
  ReflectionPadding2D_call (0, 0) [[[[1; 2]]; [[3; 4]]]]
  = inr [[[[1; 2]]; [[3; 4]]]].
Proof.
  apply (ReflectionPadding2D_zero_padding [[[[1; 2]]; [[3; 4]]]] 1 2 1 2).
  - unfold has_shape4. split; [reflexivity|]. repeat constructor.
  - lia.
  - lia.
  - lia.
  - lia.
Defined.

Lemma reflect_pad4_width_then_height {A} ph pw (t : tensor4 A) :
  reflect_pad4 ph 0 (reflect_pad4 0 pw t) = reflect_pad4 ph pw t.
Proof.
  unfold reflect_pad4. rewrite map_map. apply map_ext. intros img.
  now rewrite map_mirror_pad_0, mirror_pad_0, mirror_pad_map.
Qed.

Lemma reflect_pad4_height_then_width {A} ph pw (t : tensor4 A) :
  reflect_pad4 0 pw (reflect_pad4 ph 0 t) = reflect_pad4 ph pw t.
Proof.
  unfold reflect_pad4. rewrite map_map. apply map_ext. intros img.
  now rewrite mirror_pad_0, map_mirror_pad_0.
Qed.

(** X16.  Padding the width and the height in two separate layers, in
    either order, gives the same tensor as padding both in one layer. *)
Theorem ReflectionPadding2D_separable {A} (t : tensor4 A) b h w c
        (width_pad height_pad : nat) :
  has_shape4 t b h w c ->
  (1 <= b)%nat -> (1 <= c)%nat ->
  (height_pad < h)%nat -> (width_pad < w)%nat ->
  exists t1 t2 t',
    ReflectionPadding2D_call (Z.of_nat width_pad, Z.of_nat height_pad) t
    = inr t'
    /\ ReflectionPadding2D_call (Z.of_nat width_pad, 0) t = inr t1
    /\ ReflectionPadding2D_call (0, Z.of_nat height_pad) t1 = inr t'
    /\ ReflectionPadding2D_call (0, Z.of_nat height_pad) t = inr t2
    /\ ReflectionPadding2D_call (Z.of_nat width_pad, 0) t2 = inr t'.
Proof.
  intros Hs Hb Hc Hph Hpw.
  exists (reflect_pad4 0 width_pad t), (reflect_pad4 height_pad 0 t),
    (reflect_pad4 height_pad width_pad t).
  change 0 with (Z.of_nat 0).
  pose proof (has_shape4_reflect_pad4 t b h w c width_pad 0 Hs
                ltac:(lia) Hpw) as S1.
  pose proof (has_shape4_reflect_pad4 t b h w c 0 height_pad Hs
                Hph ltac:(lia)) as S2.
  split; [apply (ReflectionPadding2D_call_ok t b h w c); assumption|].
  split; [apply (ReflectionPadding2D_call_ok t b h w c);
          assumption || lia|].
  split.
  { rewrite (ReflectionPadding2D_call_ok _ _ _ _ _ _ _ S1) by lia.
    now rewrite reflect_pad4_width_then_height. }
  split; [apply (ReflectionPadding2D_call_ok t b h w c);
          assumption || lia|].
  rewrite (ReflectionPadding2D_call_ok _ _ _ _ _ _ _ S2) by lia.
  now rewrite reflect_pad4_height_then_width.
Qed.

Lemma ReflectionPadding2D_separable_witness :
  exists t1 t2 t',
    ReflectionPadding2D_call (Z.of_nat 1, Z.of_nat 1)
      [[[[1]; [2]]; [[3]; [4]]]] = inr t'
    /\ ReflectionPadding2D_call (Z.of_nat 1, 0)
         [[[[1]; [2]]; [[3]; [4]]]] = inr t1
    /\ ReflectionPadding2D_call (0, Z.of_nat 1) t1 = inr t'
    /\ ReflectionPadding2D_call (0, Z.of_nat 1)
         [[[[1]; [2]]; [[3]; [4]]]] = inr t2
    /\ ReflectionPadding2D_call (Z.of_nat 1, 0) t2 = inr t'.
Proof.
  apply (ReflectionPadding2D_separable [[[[1]; [2]]; [[3]; [4]]]] 1 2 2 1).
  - unfold has_shape4. split; [reflexivity|]. repeat constructor.
  - lia.
  - lia.
  - lia.
  - lia.
Defined.

Lemma mapM_app {X Y} (f : X -> result Y) (l1 l2 : list X) :
  mapM f (l1 ++ l2)
  = match mapM f l1 with
    | inl e => inl e
    | inr a =>
        match mapM f l2 with
        | inl e => inl e
        | inr b => inr (a ++ b)
        end
    end.
Proof.
  induction l1 as [|x l1 IH]; cbn [app mapM].
  - destruct (mapM f l2); reflexivity.
  - destruct (f x); [reflexivity|]. rewrite IH.
    destruct (mapM f l1); [reflexivity|].
    destruct (mapM f l2); reflexivity.
Qed.

(** X17.  Every image of a batch is padded on its own: padding the
    concatenation of two non-empty batches is the concatenation of the two
    padded batches, and raises what the first failing batch raises. *)
Theorem ReflectionPadding2D_call_batches {A} (padding : Z * Z)
        (t1 t2 : tensor4 A) :
  t1 <> [] -> t2 <> [] ->
  ReflectionPadding2D_call padding (t1 ++ t2)
  = match ReflectionPadding2D_call padding t1 with
    | inl e => inl e
    | inr a =>
        match ReflectionPadding2D_call padding t2 with
        | inl e => inl e
        | inr b => inr (a ++ b)
        end
    end.
Proof.
  intros H1 H2. destruct padding as [pw ph].
  unfold ReflectionPadding2D_call, tf_pad_reflect.
  assert (L1 : (1 <= List.length t1)%nat)
    by (destruct t1; [contradiction|simpl; lia]).
  assert (L2 : (1 <= List.length t2)%nat)
    by (destruct t2; [contradiction|simpl; lia]).
  rewrite !mirror_pad_axis_id by (rewrite ?length_app; lia).
  apply mapM_app.
Qed.

Lemma ReflectionPadding2D_call_batches_witness :
  ReflectionPadding2D_call (1, 0) ([[[[1]; [2]]]] ++ [[[[3]; [4]]]])
  = match ReflectionPadding2D_call (1, 0) [[[[1]; [2]]]] with
    | inl e => inl e
    | inr a =>
        match ReflectionPadding2D_call (1, 0) [[[[3]; [4]]]] with
        | inl e => inl e
        | inr b => inr (a ++ b)
        end
    end.
Proof.
  apply (ReflectionPadding2D_call_batches (1, 0)); discriminate.
Defined.

(* ===================================================================== *)
(** * How the builders fit together *)
(* ===================================================================== *)

(** X18.  With equal block counts (at most 8) the generator's output has
    the shape both builders take as input: it can be fed to the
    discriminator, and to a generator again. *)
Theorem generator_feeds_discriminator filters N M K gname dfilters
        num_downsampling (dname : string) :
  0 < filters -> N = K -> K <= 8 -> 0 < dfilters ->
  exists G D,
    get_resnet_generator filters N M K gname = inr G
    /\ get_discriminator dfilters num_downsampling (Some dname) = inr D
    /\ input_shapes D = [output_shape G]
    /\ input_shapes G = [output_shape G].
Proof.
  intros Hf -> HK Hd.
  assert (P : 0 < 2 ^ Z.of_nat (Z.to_nat K)) by (apply Z.pow_pos_nonneg; lia).
  destruct (resnet_generator_runs filters K M K gname Hf)
    as (G & EG & Gin & Gout & _).
  { rewrite Z.div_mul by lia. exact Hf. }
  destruct (discriminator_runs dfilters num_downsampling dname Hd)
    as (D & ED & Din & _).
  exists G, D. split; [exact EG|]. split; [exact ED|].
  rewrite Din, Gin, Gout, downsampled_256 by lia. auto.
Qed.

Lemma generator_feeds_discriminator_witness :
  exists G D,
    get_resnet_generator 64 2 5 2 (Some "gen_G") = inr G
    /\ get_discriminator 64 3 (Some "disc_X") = inr D
    /\ input_shapes D = [output_shape G]
    /\ input_shapes G = [output_shape G].
Proof.
  apply (generator_feeds_discriminator 64 2 5 2 (Some "gen_G") 64 3 "disc_X");
    lia.
Defined.
